(** * Pickleball stats dashboard: fault tally, game entry, recent games, fault trend

    A shallow embedding of [src/routes/Dashboard.tsx] and of the parts of the
    host (JavaScript strings, [Date], the Supabase client) that it calls.

    - JavaScript numbers that hold counters, scores and time values are
      integers; they are modelled as [Z].  The running averages are
      quotients of two such integers and are modelled as exact rationals
      [Q]: rounding of the quotient to a double is outside the model.
    - JavaScript strings are sequences of UTF-16 code units ([list N]).
    - [async] functions are trees of awaited backend calls over the
      component state; a backend answers the calls. *)

From Stdlib Require Import ZArith NArith QArith List String Ascii Bool Lia.
From Stdlib Require Import Sorting.Sorted Sorting.Permutation.
Import ListNotations.

Local Open Scope Z_scope.

(* ================================================================== *)
(** * Part 1.  The model *)
(* ================================================================== *)

(** ** JavaScript values *)

(** A string value: its UTF-16 code units. *)
Definition JsString : Type := list N.

(** String literals of the source, written as Rocq strings. *)
Definition js (s : string) : JsString :=
  List.map N_of_ascii (list_ascii_of_string s).

Definition JsString_eqb (a b : JsString) : bool :=
  if list_eq_dec N.eq_dec a b then true else false.

(** [a ?? b]: [b] when [a] is null or undefined. *)
Definition nullish {A : Type} (a : option A) (b : A) : A :=
  match a with
  | Some v => v
  | None => b
  end.

Notation "a ?? b" := (nullish a b) (at level 45, left associativity).

(** The code units removed by [String.prototype.trim]: the WhiteSpace and
    LineTerminator productions of ECMAScript (TAB, LF, VT, FF, CR, SP, NBSP,
    the Unicode space separators, LS, PS and the byte order mark). *)
Definition isTrimSpace (c : N) : bool :=
  ((9 <=? c) && (c <=? 13) || (c =? 32) || (c =? 160) || (c =? 5760)
   || (8192 <=? c) && (c <=? 8202) || (c =? 8232) || (c =? 8233)
   || (c =? 8239) || (c =? 8287) || (c =? 12288) || (c =? 65279))%N.

Fixpoint trimStart (s : JsString) : JsString :=
  match s with
  | [] => []
  | c :: rest => if isTrimSpace c then trimStart rest else s
  end.

Definition trimEnd (s : JsString) : JsString :=
  rev (trimStart (rev s)).

(** [s.trim()] *)
Definition trim (s : JsString) : JsString :=
  trimEnd (trimStart s).

(** What [catch (e: any)] reads of a thrown value: [e.message]. *)
Record JsError : Type := mkError { message : option JsString }.

(** [new Error(msg)] *)
Definition Error (msg : string) : JsError := mkError (Some (js msg)).

(** ** Types of the dashboard *)

Inductive FaultKey : Type := serve | return_ | net | long | setup.

Record Faults : Type := mkFaults {
  f_serve : Z;
  f_return : Z;
  f_net : Z;
  f_long : Z;
  f_setup : Z
}.

(** [{ serve: 0, return: 0, net: 0, long: 0, setup: 0 }] *)
Definition noFaults : Faults := mkFaults 0 0 0 0 0.

(** [faults[key]] *)
Definition getFault (key : FaultKey) (f : Faults) : Z :=
  match key with
  | serve => f_serve f
  | return_ => f_return f
  | net => f_net f
  | long => f_long f
  | setup => f_setup f
  end.

(** [{ ...prev, [key]: next }] *)
Definition setFault (key : FaultKey) (next : Z) (prev : Faults) : Faults :=
  match key with
  | serve => mkFaults next (f_return prev) (f_net prev) (f_long prev) (f_setup prev)
  | return_ => mkFaults (f_serve prev) next (f_net prev) (f_long prev) (f_setup prev)
  | net => mkFaults (f_serve prev) (f_return prev) next (f_long prev) (f_setup prev)
  | long => mkFaults (f_serve prev) (f_return prev) (f_net prev) next (f_setup prev)
  | setup => mkFaults (f_serve prev) (f_return prev) (f_net prev) (f_long prev) next
  end.

(** A row of the [games] table as the select returns it.  The counters are
    read through [?? 0], so a null or missing column is a possible value. *)
Record GameRow : Type := mkGameRow {
  id : Z;
  played_at : JsString;
  my_points : Z;
  opp_points : Z;
  row_location : option JsString;
  serve_faults : option Z;
  return_faults : option Z;
  into_net : option Z;
  too_long : option Z;
  setup_kill : option Z
}.

(** One point of the chart. *)
Record TrendPoint : Type := mkTrendPoint {
  label : JsString;
  tp_serve : Q;
  tp_return : Q;
  tp_net : Q;
  tp_long : Q;
  tp_setup : Q;
  tp_total : Q
}.

(** ** The host's [Date]

    [played_at] comes from a [timestamptz not null] column, so
    [new Date(played_at)] is a valid date and [getTime()] an integer number
    of milliseconds.  [toPlayedAt] consists of [Date] calls only; its
    [toISOString()] throws a RangeError on an invalid date. *)
Class Host : Type := {
  (** [new Date(s).getTime()] *)
  Date_getTime : JsString -> Z;
  (** [new Date(s).toLocaleDateString(undefined, {month: "short", day: "numeric"})] *)
  Date_shortLabel : JsString -> JsString;
  (** [toPlayedAt(dateStr, timeStr)]: the ISO string, or the error thrown *)
  toPlayedAt : JsString -> JsString -> JsError + JsString
}.

(** ** Fault tally *)

(** [changeFault(key, delta)], as the updater handed to [setFaults].
    Every key of [Faults] is present, so [prev[key] ?? 0] is [prev[key]]. *)
Definition changeFault (key : FaultKey) (delta : Z) (prev : Faults) : Faults :=
  let next := Z.max 0 (getFault key prev + delta) in
  setFault key next prev.

Definition FaultKey_eqb (a b : FaultKey) : bool :=
  match a, b with
  | serve, serve | return_, return_ | net, net | long, long | setup, setup => true
  | _, _ => false
  end.

(** The two buttons of the fault editor. *)
Inductive TallyAction : Type :=
| Increment (key : FaultKey)
| Decrement (key : FaultKey).

Definition applyAction (a : TallyAction) (f : Faults) : Faults :=
  match a with
  | Increment key => changeFault key 1 f
  | Decrement key => changeFault key (-1) f
  end.

(** The tally after a sequence of taps, oldest first. *)
Definition runActions (acts : list TallyAction) (f : Faults) : Faults :=
  fold_left (fun acc a => applyAction a acc) acts f.

(** ** Fault trend *)

(** [rowFaults(g)] *)
Definition rowFaults (g : GameRow) : Faults :=
  {| f_serve := serve_faults g ?? 0;
     f_return := return_faults g ?? 0;
     f_net := into_net g ?? 0;
     f_long := too_long g ?? 0;
     f_setup := setup_kill g ?? 0 |}.

(** [Array.prototype.sort(compare)] is a stable sort: with a consistent
    comparator its result is the one stable sorted arrangement, which
    insertion from the right computes.  [compare a b <= 0] keeps [a] first. *)
Fixpoint sortInsert {A : Type} (compare : A -> A -> Z) (x : A) (l : list A) : list A :=
  match l with
  | [] => [x]
  | y :: rest =>
      if compare x y <=? 0 then x :: l else y :: sortInsert compare x rest
  end.

Fixpoint sort {A : Type} (compare : A -> A -> Z) (l : list A) : list A :=
  match l with
  | [] => []
  | x :: rest => sortInsert compare x (sort compare rest)
  end.

(** [a / b] on two integer-valued numbers *)
Definition numDiv (a b : Z) : Q := (inject_Z a / inject_Z b)%Q.

Section Trend.
Context {host : Host}.

(** [new Date(g.played_at).getTime()] *)
Definition timeOf (g : GameRow) : Z := Date_getTime (played_at g).

(** The comparator of the trend: ascending [played_at]. *)
Definition byPlayedAtAsc (a b : GameRow) : Z := timeOf a - timeOf b.

(** The callback of [.map((g, idx) => ...)]: it adds the row to the
    shared [totals] and returns the point; the updated [totals] are
    returned with it. *)
Definition trendStep (totals : Faults) (g : GameRow) (idx : nat)
    : Faults * TrendPoint :=
    let f := rowFaults g in
    let totals :=
      {| f_serve := f_serve totals + f_serve f;
         f_return := f_return totals + f_return f;
         f_net := f_net totals + f_net f;
         f_long := f_long totals + f_long f;
         f_setup := f_setup totals + f_setup f |} in
    let gameNumber := Z.of_nat idx + 1 in
    let totalFaults :=
      f_serve totals + f_return totals + f_net totals + f_long totals
      + f_setup totals in
    (totals,
     {| label := Date_shortLabel (played_at g);
        tp_serve := numDiv (f_serve totals) gameNumber;
        tp_return := numDiv (f_return totals) gameNumber;
        tp_net := numDiv (f_net totals) gameNumber;
        tp_long := numDiv (f_long totals) gameNumber;
        tp_setup := numDiv (f_setup totals) gameNumber;
        tp_total := numDiv totalFaults gameNumber |}).

(** [.map] over the sorted rows from index [idx] on, [totals] threaded
    through the calls. *)
Fixpoint trendMap (totals : Faults) (idx : nat) (gs : list GameRow)
    : list TrendPoint :=
    match gs with
    | [] => []
    | g :: rest =>
        let '(totals', p) := trendStep totals g idx in
        p :: trendMap totals' (S idx) rest
    end.

(** [faultTrendData], the value memoised on [games]. *)
Definition faultTrendData (games : list GameRow) : list TrendPoint :=
    if (Z.of_nat (List.length games) =? 0) then []
    else trendMap noFaults 0%nat (sort byPlayedAtAsc games).

End Trend.

(** The sum of one category's counts over a list of rows. *)
Definition countSum (pick : Faults -> Z) (gs : list GameRow) : Z :=
  fold_right (fun g acc => pick (rowFaults g) + acc) 0 gs.

(** The elements of [l] whose sort key is [t], in the order of [l]. *)
Definition keyed {A : Type} (key : A -> Z) (t : Z) (l : list A) : list A :=
  filter (fun a => key a =? t) l.

(** Ascending order of the sort keys. *)
Definition ascending {A : Type} (key : A -> Z) (l : list A) : Prop :=
  Sorted (fun a b => key a <= key b) l.

(** ** The Supabase client *)

(** [user], of which the dashboard reads [user.id]. *)
Record User : Type := mkUser { uid : JsString }.

(** [{ data: { user }, error }] of [supabase.auth.getUser()] *)
Record UserResponse : Type := mkUserResponse {
  data_user : option User;
  auth_error : option JsError
}.

(** The object handed to [supabase.from("games").insert(...)]. *)
Record NewGame : Type := mkNewGame {
  new_user_id : JsString;
  new_played_at : JsString;
  new_my_points : Z;
  new_opp_points : Z;
  new_location : option JsString;
  new_serve_faults : Z;
  new_return_faults : Z;
  new_into_net : Z;
  new_too_long : Z;
  new_setup_kill : Z
}.

(** [{ error }] of the insert *)
Record InsertResponse : Type := mkInsertResponse {
  insert_error : option JsError
}.

(** The select on [games]: [.eq("user_id", v).order("played_at",
    { ascending }).limit(n)] over the ten listed columns. *)
Record SelectQuery : Type := mkSelectQuery {
  eq_user_id : JsString;
  order_ascending : bool;
  limit : nat
}.

(** [{ data, error }] of the select *)
Record SelectResponse : Type := mkSelectResponse {
  data : option (list GameRow);
  select_error : option JsError
}.

(** How an awaited promise settles. *)
Inductive Settled (R : Type) : Type :=
| Fulfilled (r : R)
| Rejected (e : JsError).

Arguments Fulfilled {R} r.
Arguments Rejected {R} e.

(** An [async] computation: it returns, or awaits one of the three backend
    calls and goes on with the way the promise settled. *)
Inductive Async (A : Type) : Type :=
| Return (a : A)
| AwaitGetUser (k : Settled UserResponse -> Async A)
| AwaitInsert (row : NewGame) (k : Settled InsertResponse -> Async A)
| AwaitSelect (q : SelectQuery) (k : Settled SelectResponse -> Async A).

Arguments Return {A} a.
Arguments AwaitGetUser {A} k.
Arguments AwaitInsert {A} row k.
Arguments AwaitSelect {A} q k.

Fixpoint asyncBind {A B : Type} (m : Async A) (f : A -> Async B) : Async B :=
  match m with
  | Return a => f a
  | AwaitGetUser k => AwaitGetUser (fun r => asyncBind (k r) f)
  | AwaitInsert row k => AwaitInsert row (fun r => asyncBind (k r) f)
  | AwaitSelect q k => AwaitSelect q (fun r => asyncBind (k r) f)
  end.

(** ** Component state *)

(** The [useState] cells of [Dashboard]. *)
Record Dash : Type := mkDash {
  date : JsString;
  time : JsString;
  myPoints : Z;
  oppPoints : Z;
  location : JsString;
  faults : Faults;
  editingFault : option FaultKey;
  adding : bool;
  error : option JsString;
  games : list GameRow;
  loadingGames : bool
}.

Definition withFaults (v : Faults) (s : Dash) : Dash :=
  mkDash (date s) (time s) (myPoints s) (oppPoints s) (location s) v
         (editingFault s) (adding s) (error s) (games s) (loadingGames s).

Definition withAdding (v : bool) (s : Dash) : Dash :=
  mkDash (date s) (time s) (myPoints s) (oppPoints s) (location s) (faults s)
         (editingFault s) v (error s) (games s) (loadingGames s).

Definition withError (v : option JsString) (s : Dash) : Dash :=
  mkDash (date s) (time s) (myPoints s) (oppPoints s) (location s) (faults s)
         (editingFault s) (adding s) v (games s) (loadingGames s).

Definition withGames (v : list GameRow) (s : Dash) : Dash :=
  mkDash (date s) (time s) (myPoints s) (oppPoints s) (location s) (faults s)
         (editingFault s) (adding s) (error s) v (loadingGames s).

Definition withLoadingGames (v : bool) (s : Dash) : Dash :=
  mkDash (date s) (time s) (myPoints s) (oppPoints s) (location s) (faults s)
         (editingFault s) (adding s) (error s) (games s) v.

(** ** Handlers: state, exceptions and awaits *)

(** How a block completes. *)
Inductive Completion (A : Type) : Type :=
| Normal (a : A)
| Throw (e : JsError).

Arguments Normal {A} a.
Arguments Throw {A} e.

(** A piece of an event handler: it runs on the current state cells. *)
Definition Task (A : Type) : Type := Dash -> Async (Completion A * Dash).

Definition ret {A : Type} (a : A) : Task A :=
  fun s => Return (Normal a, s).

Definition throw {A : Type} (e : JsError) : Task A :=
  fun s => Return (Throw e, s).

Definition bind {A B : Type} (m : Task A) (f : A -> Task B) : Task B :=
  fun s =>
    asyncBind (m s) (fun cs =>
      match cs with
      | (Normal a, s') => f a s'
      | (Throw e, s') => Return (Throw e, s')
      end).

Notation "x <- m ;; k" := (bind m (fun x => k))
  (at level 61, m at next level, right associativity).
Notation "m ;; k" := (bind m (fun _ => k))
  (at level 61, right associativity).

(** [try { body } catch (e) { handler }] *)
Definition tryCatch {A : Type} (body : Task A) (handler : JsError -> Task A)
  : Task A :=
  fun s =>
    asyncBind (body s) (fun cs =>
      match cs with
      | (Normal a, s') => Return (Normal a, s')
      | (Throw e, s') => handler e s'
      end).

(** [try { body } finally { fin }] *)
Definition tryFinally {A : Type} (body : Task A) (fin : Task unit) : Task A :=
  fun s =>
    asyncBind (body s) (fun cs =>
      asyncBind (fin (snd cs)) (fun cs' =>
        match cs' with
        | (Normal _, s'') => Return (fst cs, s'')
        | (Throw e, s'') => Return (Throw e, s'')
        end)).

(** A state setter called with a value. *)
Definition setState (upd : Dash -> Dash) : Task unit :=
  fun s => Return (Normal tt, upd s).

Definition setFaults (v : Faults) : Task unit := setState (withFaults v).
Definition setAdding (v : bool) : Task unit := setState (withAdding v).
Definition setError (v : option JsString) : Task unit := setState (withError v).
Definition setGames (v : list GameRow) : Task unit := setState (withGames v).
Definition setLoadingGames (v : bool) : Task unit := setState (withLoadingGames v).

(** [await p]: a rejected promise throws its reason. *)
Definition settle {R : Type} (s : Dash) (r : Settled R) : Async (Completion R * Dash) :=
  match r with
  | Fulfilled v => Return (Normal v, s)
  | Rejected e => Return (Throw e, s)
  end.

(** [await supabase.auth.getUser()] *)
Definition supabase_auth_getUser : Task UserResponse :=
  fun s => AwaitGetUser (settle s).

(** [await supabase.from("games").insert(row)] *)
Definition supabase_games_insert (row : NewGame) : Task InsertResponse :=
  fun s => AwaitInsert row (settle s).

(** [await supabase.from("games").select(...).eq(...).order(...).limit(...)] *)
Definition supabase_games_select (q : SelectQuery) : Task SelectResponse :=
  fun s => AwaitSelect q (settle s).

(** [if (err) throw err] *)
Definition throwIf (err : option JsError) : Task unit :=
  match err with
  | Some e => throw e
  | None => ret tt
  end.

(** [if (!user) throw new Error("Not signed in")] *)
Definition requireUser (user : option User) : Task User :=
  match user with
  | None => throw (Error "Not signed in")
  | Some u => ret u
  end.

(** ** Recent games *)

(** [loadGames()] *)
Definition loadGames : Task unit :=
  setLoadingGames true ;;
  setError None ;;
  tryFinally
    (tryCatch
       (r <- supabase_auth_getUser ;;
        throwIf (auth_error r) ;;
        user <- requireUser (data_user r) ;;
        r <- supabase_games_select
               {| eq_user_id := uid user; order_ascending := false;
                  limit := 25 |} ;;
        throwIf (select_error r) ;;
        setGames (data r ?? []))
       (fun e => setError (Some (message e ?? js "Failed to load games"))))
    (setLoadingGames false).

(** ** Game entry *)

(** [location?.trim() || null] *)
Definition locationOrNull (loc : JsString) : option JsString :=
  match trim loc with
  | [] => None
  | t => Some t
  end.

Section Entry.
Context {host : Host}.

(** The body of [toPlayedAt] throws when the date is invalid. *)
Definition playedAtOf (dateStr timeStr : JsString) : Task JsString :=
    match toPlayedAt dateStr timeStr with
    | inl e => throw e
    | inr iso => ret iso
    end.

(** The object literal handed to the insert. *)
Definition newGame (view : Dash) (user : User) (played_at : JsString) : NewGame :=
  {| new_user_id := uid user;
     new_played_at := played_at;
     new_my_points := myPoints view;
     new_opp_points := oppPoints view;
     new_location := locationOrNull (location view);
     new_serve_faults := f_serve (faults view);
     new_return_faults := f_return (faults view);
     new_into_net := f_net (faults view);
     new_too_long := f_long (faults view);
     new_setup_kill := f_setup (faults view) |}.

(** [addGame()].  The handler is a closure of one render: [view] holds
    the state cells as that render saw them, and the setters act on the
    current cells. *)
Definition addGame (view : Dash) : Task unit :=
    setError None ;;
    setAdding true ;;
    tryFinally
      (tryCatch
         (r <- supabase_auth_getUser ;;
          throwIf (auth_error r) ;;
          user <- requireUser (data_user r) ;;
          played_at <- playedAtOf (date view) (time view) ;;
          r <- supabase_games_insert (newGame view user played_at) ;;
          throwIf (insert_error r) ;;
          setFaults noFaults ;;
          loadGames)
         (fun e => setError (Some (message e ?? js "Failed to add game"))))
      (setAdding false).

End Entry.

(** ** Running a handler against a backend *)

(** A backend answers the three calls and may change while doing so. *)
Record Backend (W : Type) : Type := mkBackend {
  getUser : W -> Settled UserResponse * W;
  insert : NewGame -> W -> Settled InsertResponse * W;
  select : SelectQuery -> W -> Settled SelectResponse * W
}.

Arguments getUser {W} _ _.
Arguments insert {W} _ _ _.
Arguments select {W} _ _ _.

(** The calls a handler made, with the answers it got. *)
Inductive Event : Type :=
| GotUser (r : Settled UserResponse)
| Inserted (row : NewGame) (r : Settled InsertResponse)
| Selected (q : SelectQuery) (r : Settled SelectResponse).

Fixpoint run {W A : Type} (B : Backend W) (m : Async A) (w : W)
  : A * W * list Event :=
  match m with
  | Return a => (a, w, [])
  | AwaitGetUser k =>
      let '(r, w1) := getUser B w in
      let '(a, w2, tr) := run B (k r) w1 in
      (a, w2, GotUser r :: tr)
  | AwaitInsert row k =>
      let '(r, w1) := insert B row w in
      let '(a, w2, tr) := run B (k r) w1 in
      (a, w2, Inserted row r :: tr)
  | AwaitSelect q k =>
      let '(r, w1) := select B q w in
      let '(a, w2, tr) := run B (k r) w1 in
      (a, w2, Selected q r :: tr)
  end.

(** The state cells after the handler, and the calls it made. *)
Definition stateAfter {W A : Type} (B : Backend W) (t : Task A) (s : Dash) (w : W)
  : Dash :=
  snd (fst (fst (run B (t s) w))).

Definition callsOf {W A : Type} (B : Backend W) (t : Task A) (s : Dash) (w : W)
  : list Event :=
  snd (run B (t s) w).

Definition worldAfter {W A : Type} (B : Backend W) (t : Task A) (s : Dash) (w : W)
  : W :=
  snd (fst (run B (t s) w)).

Definition isInsert (e : Event) : bool :=
  match e with
  | Inserted _ _ => true
  | _ => false
  end.

(** The error a write ended with, if it did. *)
Definition insertFailure (r : Settled InsertResponse) : option JsError :=
  match r with
  | Rejected e => Some e
  | Fulfilled resp => insert_error resp
  end.

(** The identity a [getUser] answer resolves to: none when the promise is
    rejected, an error comes back, or [user] is null. *)
Definition resolvedUser (r : Settled UserResponse) : option User :=
  match r with
  | Rejected _ => None
  | Fulfilled resp =>
      match auth_error resp with
      | Some _ => None
      | None => data_user resp
      end
  end.

(** What is thrown when a [getUser] answer resolves to no identity. *)
Definition signInFailure (r : Settled UserResponse) : JsError :=
  match r with
  | Rejected e => e
  | Fulfilled resp =>
      match auth_error resp with
      | Some e => e
      | None => Error "Not signed in"
      end
  end.

(** The state cells once a handler has started: [setError(null)] and
    [setAdding(true)]. *)
Definition started (s : Dash) : Dash := withAdding true (withError None s).

(** The state cells once a handler has caught [e] and finished. *)
Definition failedWith (e : JsError) (fallback : string) (s : Dash) : Dash :=
  withAdding false (withError (Some (message e ?? js fallback)) (started s)).

Arguments js : simpl never.

(** ** The hosted store

    The store and the identity service run outside the repository.  The
    definitions of this part follow section 6 of the specification and the
    [games] table of the README: a user reads and writes only the rows they
    own, a query filters, orders by play time and cuts at the limit. *)

(** Modelled from the spec: a row of the [games] table and its owner (the
    [user_id] column). *)
Record StoredGame : Type := mkStoredGame {
  owner : JsString;
  stored : GameRow
}.

(** Modelled from the spec: the hosted service, with the current session,
    the table and the next identifier it assigns. *)
Record Store : Type := mkStore {
  session : option User;
  table : list StoredGame;
  next_id : Z
}.

(** Modelled from the spec: the row-level policy, [auth.uid() = user_id]. *)
Definition policyAllows (st : Store) (user_id : JsString) : bool :=
  match session st with
  | Some u => JsString_eqb (uid u) user_id
  | None => false
  end.

(** Modelled from the spec: the row the store keeps for an inserted
    object; the store assigns [id]. *)
Definition storedOf (st : Store) (row : NewGame) : StoredGame :=
  {| owner := new_user_id row;
     stored :=
       {| id := next_id st;
          played_at := new_played_at row;
          my_points := new_my_points row;
          opp_points := new_opp_points row;
          row_location := new_location row;
          serve_faults := Some (new_serve_faults row);
          return_faults := Some (new_return_faults row);
          into_net := Some (new_into_net row);
          too_long := Some (new_too_long row);
          setup_kill := Some (new_setup_kill row) |} |}.

(** Modelled from the spec: [getCurrentUser() -> identity | none]. *)
Definition storeGetUser (st : Store) : Settled UserResponse * Store :=
  (Fulfilled {| data_user := session st; auth_error := None |}, st).

(** Modelled from the spec: [insert(table, record) -> id | error], under
    the policy. *)
Definition storeInsert (row : NewGame) (st : Store)
  : Settled InsertResponse * Store :=
  if policyAllows st (new_user_id row) then
    (Fulfilled {| insert_error := None |},
     {| session := session st;
        table := table st ++ [storedOf st row];
        next_id := next_id st + 1 |})
  else
    (Fulfilled {| insert_error :=
                    Some (Error "new row violates row-level security policy") |},
     st).

Section HostedStore.
Context {host : Host}.

(** Descending [played_at]. *)
Definition byPlayedAtDesc (a b : GameRow) : Z := timeOf b - timeOf a.

(** Modelled from the spec: the rows a query may return, those the policy
    lets the session read and the [eq] filter keeps. *)
Definition visibleTo (st : Store) (q : SelectQuery) (g : StoredGame) : bool :=
  policyAllows st (owner g) && JsString_eqb (owner g) (eq_user_id q).

(** Modelled from the spec: [query(table, filter, orderBy, limit) -> rows]. *)
Definition storeRows (st : Store) (q : SelectQuery) : list GameRow :=
  firstn (limit q)
    (sort (if order_ascending q then byPlayedAtAsc else byPlayedAtDesc)
       (List.map stored (filter (visibleTo st q) (table st)))).

(** Modelled from the spec: a query that the store answers. *)
Definition storeSelect (q : SelectQuery) (st : Store)
  : Settled SelectResponse * Store :=
  (Fulfilled {| data := Some (storeRows st q); select_error := None |}, st).

(** Modelled from the spec: the store and identity collaborators as a
    backend of the handlers. *)
Definition hostedStore : Backend Store :=
  {| getUser := storeGetUser; insert := storeInsert; select := storeSelect |}.

End HostedStore.

(** A backend that gives the same three answers whatever it is asked. *)
Definition scripted (u : Settled UserResponse) (i : Settled InsertResponse)
  (q : Settled SelectResponse) : Backend unit :=
  {| getUser := fun w => (u, w);
     insert := fun _ w => (i, w);
     select := fun _ w => (q, w) |}.

(** ** Sample data *)

Module Sample.

Definition lookup {V : Type} (tbl : list (JsString * V)) (dflt : V) (s : JsString) : V :=
  match find (fun kv => JsString_eqb (fst kv) s) tbl with
  | Some kv => snd kv
  | None => dflt
  end.

Definition t1 : JsString := js "2024-05-01T10:00:00+00:00".
Definition t2 : JsString := js "2024-05-02T09:15:00+00:00".
Definition t3 : JsString := js "2024-05-03T18:30:00+00:00".

(** A host in the UTC zone, tabulated on the three sample times. *)
Definition utc : Host :=
  {| Date_getTime :=
       lookup [(t1, 1714557600000); (t2, 1714641300000); (t3, 1714761000000)] 0;
     Date_shortLabel :=
       lookup [(t1, js "May 1"); (t2, js "May 2"); (t3, js "May 3")] (js "Jan 1");
     toPlayedAt := fun d t =>
       match d with
       | [] => inl (Error "Invalid time value")
       | _ => inr (d ++ js "T" ++ t ++ js ":00.000Z")
       end |}.

Definition game (n : Z) (at_ : JsString) (sv rt : Z) : GameRow :=
  {| id := n; played_at := at_; my_points := 11; opp_points := 8;
     row_location := None;
     serve_faults := Some sv; return_faults := Some rt;
     into_net := Some 0; too_long := None; setup_kill := Some 1 |}.

Definition g1 : GameRow := game 1 t1 2 1.
Definition g2 : GameRow := game 2 t2 4 0.
Definition g3 : GameRow := game 3 t3 0 3.

(** Two games played at the same instant. *)
Definition tieA : GameRow := game 4 t1 2 0.
Definition tieB : GameRow := game 5 t1 4 0.

Definition alice : User := {| uid := js "a1" |}.
Definition bob : User := {| uid := js "b2" |}.

Definition form : Dash :=
  {| date := js "2024-05-04"; time := js "08:00";
     myPoints := 11; oppPoints := 8;
     location := js "  Court 3 ";
     faults := mkFaults 2 0 1 0 3;
     editingFault := None; adding := false; error := None;
     games := []; loadingGames := false |}.

Definition signedIn : Settled UserResponse :=
  Fulfilled {| data_user := Some alice; auth_error := None |}.

Definition signedOut : Settled UserResponse :=
  Fulfilled {| data_user := None; auth_error := None |}.

Definition written : Settled InsertResponse :=
  Fulfilled {| insert_error := None |}.

Definition refused : Settled InsertResponse :=
  Fulfilled {| insert_error := Some (Error "permission denied for table games") |}.

Definition listed : Settled SelectResponse :=
  Fulfilled {| data := Some [g3; g2; g1]; select_error := None |}.

Definition shelf : Store :=
  {| session := Some alice;
     table := [ mkStoredGame (js "a1") g1; mkStoredGame (js "b2") g2;
                mkStoredGame (js "a1") g3 ];
     next_id := 6 |}.

Definition emptyShelf : Store :=
  {| session := Some bob; table := [ mkStoredGame (js "a1") g1 ]; next_id := 6 |}.

(** Three games as the query returns them, most recent first. *)
Definition played : list GameRow := [g3; g2; g1].

(** The same games in another order. *)
Definition shuffled : list GameRow := [g1; g3; g2].

Definition taps : list TallyAction :=
  [Increment serve; Decrement serve; Decrement serve; Increment net].

(** The row that submitting [form] as [alice] hands to the store. *)
Definition submitted : NewGame :=
  {| new_user_id := js "a1";
     new_played_at := js "2024-05-04T08:00:00.000Z";
     new_my_points := 11; new_opp_points := 8;
     new_location := Some (js "Court 3");
     new_serve_faults := 2; new_return_faults := 0; new_into_net := 1;
     new_too_long := 0; new_setup_kill := 3 |}.

End Sample.

(** ** The entry form *)

Definition withDate (v : JsString) (s : Dash) : Dash :=
  mkDash v (time s) (myPoints s) (oppPoints s) (location s) (faults s)
         (editingFault s) (adding s) (error s) (games s) (loadingGames s).












Section Session.
Context {host : Host} {W : Type} (B : Backend W).



End Session.


(** The number of taps on the plus button of [key]. *)
Definition incrementsOf (key : FaultKey) (acts : list TallyAction) : Z :=
  Z.of_nat
    (List.length
       (filter (fun a => match a with
                         | Increment k => FaultKey_eqb k key
                         | Decrement _ => false
                         end) acts)).

Definition decrementsOf (key : FaultKey) (acts : list TallyAction) : Z :=
  Z.of_nat
    (List.length
       (filter (fun a => match a with
                         | Decrement k => FaultKey_eqb k key
                         | Increment _ => false
                         end) acts)).

Definition isSelect (e : Event) : bool :=
  match e with
  | Selected _ _ => true
  | _ => false
  end.

(** ** The time of play *)

(** [s.split(sep)] for a separator of one code unit: the pieces between
    the separators, at least one. *)
Fixpoint splitOn (sep : N) (s : JsString) : list JsString :=
  match s with
  | [] => [[]]
  | c :: rest =>
      if (c =? sep)%N then [] :: splitOn sep rest
      else
        match splitOn sep rest with
        | piece :: pieces => (c :: piece) :: pieces
        | [] => [[c]]
        end
  end.

(** The first statement of [toPlayedAt]:
    [const [h = "00", m = "00"] = (timeStr || "").split(":")].  [timeStr]
    is a string, so [timeStr || ""] is [timeStr] (the empty string is the
    only falsy one); 58 is the colon; a default is taken where the array
    has no element. *)
Definition timeParts (timeStr : JsString) : JsString * JsString :=
  match splitOn 58 timeStr with
  | [] => (js "00", js "00")
  | [h] => (h, js "00")
  | h :: m :: _ => (h, m)
  end.

(** ** The sign-in and password pages *)

(** [{ error }] of a call to [supabase.auth]; the pages read nothing else. *)
Record AuthResponse : Type := mkAuthResponse {
  call_error : option JsError
}.

(** The calls of the two pages to [supabase.auth]. *)
Inductive AuthCall : Type :=
| signInWithPassword (email password : JsString)
| signUp (email password : JsString)
| resetPasswordForEmail (email redirectTo : JsString)
| updateUser (password : JsString).

(** What the pages do to the browser: [e.preventDefault()],
    [navigate(to, { replace })], and
    [setTimeout(() => nav(to, { replace }), ms)]. *)
Inductive PageEffect : Type :=
| preventDefault
| navigate (to : JsString) (replace : bool)
| navigateAfter (ms : Z) (to : JsString) (replace : bool).

(** An [async] handler of a page: it returns, awaits a call, or does
    something to the browser and goes on. *)
Inductive Page (A : Type) : Type :=
| PageReturn (a : A)
| PageAwait (c : AuthCall) (k : Settled AuthResponse -> Page A)
| PageDo (e : PageEffect) (k : Page A).

Arguments PageReturn {A} a.
Arguments PageAwait {A} c k.
Arguments PageDo {A} e k.

Fixpoint pageBind {A B : Type} (m : Page A) (f : A -> Page B) : Page B :=
  match m with
  | PageReturn a => f a
  | PageAwait c k => PageAwait c (fun r => pageBind (k r) f)
  | PageDo e k => PageDo e (pageBind k f)
  end.

(** A piece of a handler over the state cells [S] of its page. *)
Definition Handler (S A : Type) : Type := S -> Page (Completion A * S).

Definition hret {S A : Type} (a : A) : Handler S A :=
  fun s => PageReturn (Normal a, s).

Definition hthrow {S A : Type} (e : JsError) : Handler S A :=
  fun s => PageReturn (Throw e, s).

Definition hbind {S A B : Type} (m : Handler S A) (f : A -> Handler S B)
  : Handler S B :=
  fun s =>
    pageBind (m s) (fun cs =>
      match cs with
      | (Normal a, s') => f a s'
      | (Throw e, s') => PageReturn (Throw e, s')
      end).

Declare Scope handler_scope.
Delimit Scope handler_scope with handler.
Notation "x <- m ;; k" := (hbind m (fun x => k))
  (at level 61, m at next level, right associativity) : handler_scope.
Notation "m ;; k" := (hbind m (fun _ => k))
  (at level 61, right associativity) : handler_scope.

(** [try { body } catch (e) { handler }] *)
Definition htryCatch {S A : Type} (body : Handler S A)
  (handler : JsError -> Handler S A) : Handler S A :=
  fun s =>
    pageBind (body s) (fun cs =>
      match cs with
      | (Normal a, s') => PageReturn (Normal a, s')
      | (Throw e, s') => handler e s'
      end).

(** [try { body } finally { fin }] *)
Definition htryFinally {S A : Type} (body : Handler S A) (fin : Handler S unit)
  : Handler S A :=
  fun s =>
    pageBind (body s) (fun cs =>
      pageBind (fin (snd cs)) (fun cs' =>
        match cs' with
        | (Normal _, s'') => PageReturn (fst cs, s'')
        | (Throw e, s'') => PageReturn (Throw e, s'')
        end)).

(** A state setter called with a value. *)
Definition hset {S : Type} (upd : S -> S) : Handler S unit :=
  fun s => PageReturn (Normal tt, upd s).

(** [await supabase.auth.<call>]: a rejected promise throws its reason. *)
Definition hawait {S : Type} (c : AuthCall) : Handler S AuthResponse :=
  fun s =>
    PageAwait c (fun r =>
      match r with
      | Fulfilled v => PageReturn (Normal v, s)
      | Rejected e => PageReturn (Throw e, s)
      end).

Definition hdo {S : Type} (e : PageEffect) : Handler S unit :=
  fun s => PageDo e (PageReturn (Normal tt, s)).

(** [if (error) throw error] *)
Definition hthrowIf {S : Type} (err : option JsError) : Handler S unit :=
  match err with
  | Some e => hthrow e
  | None => hret tt
  end.

(** What a handler asked and did, in order. *)
Inductive PageEvent : Type :=
| Called (c : AuthCall) (r : Settled AuthResponse)
| Did (e : PageEffect).

(** A handler run with [answer] settling its calls. *)
Fixpoint runPage {A : Type} (answer : AuthCall -> Settled AuthResponse)
  (m : Page A) : A * list PageEvent :=
  match m with
  | PageReturn a => (a, [])
  | PageAwait c k =>
      let '(a, tr) := runPage answer (k (answer c)) in
      (a, Called c (answer c) :: tr)
  | PageDo e k =>
      let '(a, tr) := runPage answer k in
      (a, Did e :: tr)
  end.

Definition pageAfter {S A : Type} (answer : AuthCall -> Settled AuthResponse)
  (h : Handler S A) (s : S) : S :=
  snd (fst (runPage answer (h s))).

Definition eventsOf {S A : Type} (answer : AuthCall -> Settled AuthResponse)
  (h : Handler S A) (s : S) : list PageEvent :=
  snd (runPage answer (h s)).

(** The error a call ended with, if it did. *)
Definition callFailure (r : Settled AuthResponse) : option JsError :=
  match r with
  | Rejected e => Some e
  | Fulfilled resp => call_error resp
  end.

(** The page that sets a new password. *)
Module ResetPage.

Record Form : Type := mkForm {
  password : JsString;
  confirm : JsString;
  saving : bool;
  msg : option JsString;
  err : option JsString
}.

Definition withSaving (v : bool) (s : Form) : Form :=
  mkForm (password s) (confirm s) v (msg s) (err s).

Definition withMsg (v : option JsString) (s : Form) : Form :=
  mkForm (password s) (confirm s) (saving s) v (err s).

Definition withErr (v : option JsString) (s : Form) : Form :=
  mkForm (password s) (confirm s) (saving s) (msg s) v.

Definition setSaving (v : bool) : Handler Form unit := hset (withSaving v).
Definition setMsg (v : option JsString) : Handler Form unit := hset (withMsg v).
Definition setErr (v : option JsString) : Handler Form unit := hset (withErr v).

(** ["Password updated. Redirecting to dashboard…"] *)
Definition updatedMessage : JsString :=
  js "Password updated. Redirecting to dashboard" ++ [8230%N].

(** [onSubmit(e)], a closure of the render that saw [view]. *)
Definition onSubmit (view : Form) : Handler Form unit :=
  (hdo preventDefault ;;
   setErr None ;;
   setMsg None ;;
   if (Z.of_nat (List.length (password view)) <? 6) then
     setErr (Some (js "Password must be at least 6 characters."))
   else if negb (JsString_eqb (password view) (confirm view)) then
     setErr (Some (js "Passwords do not match."))
   else
     setSaving true ;;
     htryFinally
       (htryCatch
          (r <- hawait (updateUser (password view)) ;;
           hthrowIf (call_error r) ;;
           setMsg (Some updatedMessage) ;;
           hdo (navigateAfter 800 (js "/dashboard") true))
          (fun e => setErr (Some (message e ?? js "Could not update password."))))
       (setSaving false))%handler.

End ResetPage.

(** The page that signs in and signs up. *)
Module SignInPage.

Inductive Mode : Type := signin | signup.

Record Form : Type := mkForm {
  mode : Mode;
  email : JsString;
  password : JsString;
  loading : bool;
  err : option JsString;
  info : option JsString
}.

Definition withLoading (v : bool) (s : Form) : Form :=
  mkForm (mode s) (email s) (password s) v (err s) (info s).

Definition withErr (v : option JsString) (s : Form) : Form :=
  mkForm (mode s) (email s) (password s) (loading s) v (info s).

Definition withInfo (v : option JsString) (s : Form) : Form :=
  mkForm (mode s) (email s) (password s) (loading s) (err s) v.

Definition setLoading (v : bool) : Handler Form unit := hset (withLoading v).
Definition setErr (v : option JsString) : Handler Form unit := hset (withErr v).
Definition setInfo (v : option JsString) : Handler Form unit := hset (withInfo v).

(** [handleSubmit(e)] *)
Definition handleSubmit (view : Form) : Handler Form unit :=
  (hdo preventDefault ;;
   setErr None ;;
   setInfo None ;;
   setLoading true ;;
   htryFinally
     (htryCatch
        ((match mode view with
          | signin =>
              r <- hawait (signInWithPassword (email view) (password view)) ;;
              hthrowIf (call_error r)
          | signup =>
              r <- hawait (signUp (email view) (password view)) ;;
              hthrowIf (call_error r)
          end) ;;
         hdo (navigate (js "/dashboard") true))
        (fun e => setErr (Some (message e ?? js "Something went wrong"))))
     (setLoading false))%handler.

(** ['Enter your email above, then click “Forgot password?”'] *)
Definition emailHint : JsString :=
  js "Enter your email above, then click " ++ [8220%N]
  ++ js "Forgot password?" ++ [8221%N].

(** ["Couldn’t send reset email."] *)
Definition notSent : JsString :=
  js "Couldn" ++ [8217%N] ++ js "t send reset email.".

(** [handleResetPassword()]; [origin] is [window.location.origin]. *)
Definition handleResetPassword (origin : JsString) (view : Form)
  : Handler Form unit :=
  (setErr None ;;
   setInfo None ;;
   match email view with
   | [] => setErr (Some emailHint)
   | _ =>
       htryCatch
         (r <- hawait (resetPasswordForEmail (email view)
                         (origin ++ js "/reset")) ;;
          hthrowIf (call_error r) ;;
          setInfo (Some (js "Check your email for a password reset link.")))
         (fun e => setErr (Some (message e ?? notSent)))
   end)%handler.

End SignInPage.

(** Sample forms and answers of the identity service. *)
Module AuthSample.

Definition allGood (c : AuthCall) : Settled AuthResponse :=
  Fulfilled {| call_error := None |}.

Definition allBad (c : AuthCall) : Settled AuthResponse :=
  Fulfilled {| call_error := Some (Error "Invalid login credentials") |}.

Definition shortPassword : ResetPage.Form :=
  ResetPage.mkForm (js "abc") (js "abc") false None None.

Definition goodPassword : ResetPage.Form :=
  ResetPage.mkForm (js "s3cret!") (js "s3cret!") false None None.

Definition signingIn : SignInPage.Form :=
  SignInPage.mkForm SignInPage.signin (js "a@b.co") (js "s3cret!") false
    None None.

Definition noEmail : SignInPage.Form :=
  SignInPage.mkForm SignInPage.signin [] [] false None None.

End AuthSample.

(* ================================================================== *)
(** * Part 2.  Properties *)
(* ================================================================== *)

(** ** The stable sort *)

Section SortFacts.
Variable A : Type.
Variable key : A -> Z.
Variable compare : A -> A -> Z.
Hypothesis compare_key : forall a b, compare a b = key a - key b.

Lemma sortInsert_perm (x : A) (l : list A) :
  Permutation (x :: l) (sortInsert compare x l).
Proof.
  induction l as [|y l IH]; simpl.
  - apply Permutation_refl.
  - destruct (compare x y <=? 0).
    + apply Permutation_refl.
    + eapply perm_trans; [apply perm_swap|].
      now apply perm_skip.
Qed.

Lemma sort_perm (l : list A) : Permutation l (sort compare l).
Proof.
  induction l as [|x l IH]; simpl.
  - apply perm_nil.
  - eapply perm_trans; [apply perm_skip, IH|].
    apply sortInsert_perm.
Qed.

Lemma sort_length (l : list A) : List.length (sort compare l) = List.length l.
Proof.
  symmetry. apply Permutation_length, sort_perm.
Qed.

Lemma sortInsert_hd (x z : A) (l : list A) :
  key z <= key x ->
  HdRel (fun a b => key a <= key b) z l ->
  HdRel (fun a b => key a <= key b) z (sortInsert compare x l).
Proof.
  intros Hzx Hz. destruct l as [|y l]; simpl.
  - now constructor.
  - destruct (compare x y <=? 0); constructor; trivial.
    now inversion Hz.
Qed.

Lemma sortInsert_ascending (x : A) (l : list A) :
  ascending key l -> ascending key (sortInsert compare x l).
Proof.
  unfold ascending. induction l as [|y l IH]; intros Hs; simpl.
  - repeat constructor.
  - destruct (compare x y <=? 0) eqn:E.
    + constructor; trivial. constructor.
      apply Z.leb_le in E. rewrite compare_key in E. lia.
    + apply Z.leb_gt in E. rewrite compare_key in E.
      inversion Hs; subst. constructor.
      * now apply IH.
      * apply sortInsert_hd; trivial. lia.
Qed.

Lemma sort_ascending (l : list A) : ascending key (sort compare l).
Proof.
  induction l as [|x l IH]; simpl.
  - constructor.
  - now apply sortInsert_ascending.
Qed.

(** Insertion does not reorder the elements of one key. *)
Lemma sortInsert_keyed (t : Z) (x : A) (l : list A) :
  keyed key t (sortInsert compare x l) = keyed key t (x :: l).
Proof.
  unfold keyed. induction l as [|y l IH]; simpl; trivial.
  destruct (compare x y <=? 0) eqn:E; simpl; trivial.
  apply Z.leb_gt in E. rewrite compare_key in E.
  rewrite IH. simpl.
  destruct (key x =? t) eqn:Ex; trivial.
  destruct (key y =? t) eqn:Ey; trivial.
  apply Z.eqb_eq in Ex, Ey. lia.
Qed.

Lemma sort_keyed (t : Z) (l : list A) :
  keyed key t (sort compare l) = keyed key t l.
Proof.
  induction l as [|x l IH]; simpl; trivial.
  rewrite sortInsert_keyed. unfold keyed in *. simpl. now rewrite IH.
Qed.

Lemma ascending_least (a : A) (l : list A) :
  ascending key (a :: l) -> forall b, In b (a :: l) -> key a <= key b.
Proof.
  unfold ascending. intros Hs.
  apply Sorted_StronglySorted in Hs.
  - inversion Hs as [|? ? _ Hall]; subst.
    intros b [<-|Hb]; [lia|].
    rewrite Forall_forall in Hall. now apply Hall.
  - intros u v w; lia.
Qed.

Lemma keyed_In (t : Z) (b : A) (l : list A) :
  In b (keyed key t l) -> In b l /\ key b = t.
Proof.
  unfold keyed. rewrite filter_In. intros [H E].
  split; trivial. now apply Z.eqb_eq.
Qed.

(** Two ascending lists with the same elements of every key, in the same
    order, are the same list. *)
Lemma ascending_keyed_unique (l1 : list A) :
  forall l2,
    ascending key l1 -> ascending key l2 ->
    (forall t, keyed key t l1 = keyed key t l2) ->
    l1 = l2.
Proof.
  induction l1 as [|a l1 IH]; intros l2 H1 H2 Hk.
  - destruct l2 as [|b l2]; trivial.
    specialize (Hk (key b)). unfold keyed in Hk. simpl in Hk.
    rewrite Z.eqb_refl in Hk. discriminate.
  - destruct l2 as [|b l2].
    + specialize (Hk (key a)). unfold keyed in Hk. simpl in Hk.
      rewrite Z.eqb_refl in Hk. discriminate.
    + assert (Ha : In a (b :: l2)).
      { apply (keyed_In (key a)). rewrite <- Hk. unfold keyed. simpl.
        rewrite Z.eqb_refl. now left. }
      assert (Hb : In b (a :: l1)).
      { apply (keyed_In (key b)). rewrite Hk. unfold keyed. simpl.
        rewrite Z.eqb_refl. now left. }
      pose proof (ascending_least _ _ H1 _ Hb) as Hab.
      pose proof (ascending_least _ _ H2 _ Ha) as Hba.
      assert (Hkey : key a = key b) by lia.
      pose proof (Hk (key a)) as Hhd. unfold keyed in Hhd. simpl in Hhd.
      rewrite <- Hkey, Z.eqb_refl in Hhd.
      injection Hhd as Hab' Htl. subst b. f_equal.
      apply IH.
      * unfold ascending in *. now inversion H1.
      * unfold ascending in *. now inversion H2.
      * intros t. destruct (Z.eq_dec t (key a)) as [->|Hne]; trivial.
        specialize (Hk t). unfold keyed in *. simpl in Hk.
        destruct (key a =? t) eqn:E; trivial.
        apply Z.eqb_eq in E. congruence.
Qed.

Lemma sort_keyed_unique (l l' : list A) :
  (forall t, keyed key t l = keyed key t l') ->
  sort compare l = sort compare l'.
Proof.
  intros Hk. apply ascending_keyed_unique; try apply sort_ascending.
  intros t. now rewrite !sort_keyed.
Qed.

End SortFacts.

(** ** The fault trend *)

Section TrendFacts.
Context {host : Host}.

Ltac same_quotient :=
  match goal with
  | |- numDiv ?a ?k = numDiv ?b ?k' =>
      replace b with a by lia; replace k' with k by lia; reflexivity
  end.

Lemma byPlayedAtAsc_key (a b : GameRow) : byPlayedAtAsc a b = timeOf a - timeOf b.
Proof. reflexivity. Qed.

Lemma countSum_cons (pick : Faults -> Z) (g : GameRow) (gs : list GameRow) :
  countSum pick (g :: gs) = pick (rowFaults g) + countSum pick gs.
Proof. reflexivity. Qed.

Lemma trendMap_length (gs : list GameRow) :
  forall totals idx, List.length (trendMap totals idx gs) = List.length gs.
Proof.
  induction gs as [|g gs IH]; intros totals idx; simpl; trivial.
  now rewrite IH.
Qed.

Lemma faultTrendData_sorted (games : list GameRow) :
  faultTrendData games = trendMap noFaults 0%nat (sort byPlayedAtAsc games).
Proof.
  unfold faultTrendData. destruct games; reflexivity.
Qed.

(** The point at offset [j] of a [.map] that starts at index [idx] with
    the sums [totals]. *)
Lemma trendMap_nth (gs : list GameRow) :
  forall totals idx j g,
    nth_error gs j = Some g ->
    exists p,
      nth_error (trendMap totals idx gs) j = Some p /\
      label p = Date_shortLabel (played_at g) /\
      let seen := firstn (S j) gs in
      let k := Z.of_nat (idx + j) + 1 in
      tp_serve p = numDiv (f_serve totals + countSum f_serve seen) k /\
      tp_return p = numDiv (f_return totals + countSum f_return seen) k /\
      tp_net p = numDiv (f_net totals + countSum f_net seen) k /\
      tp_long p = numDiv (f_long totals + countSum f_long seen) k /\
      tp_setup p = numDiv (f_setup totals + countSum f_setup seen) k /\
      tp_total p =
        numDiv (f_serve totals + countSum f_serve seen
                + (f_return totals + countSum f_return seen)
                + (f_net totals + countSum f_net seen)
                + (f_long totals + countSum f_long seen)
                + (f_setup totals + countSum f_setup seen)) k.
Proof.
  induction gs as [|g0 gs IH]; intros totals idx j g Hj.
  - destruct j; discriminate.
  - destruct j as [|j].
    + injection Hj as <-. eexists. split; [reflexivity|]. split; [reflexivity|].
      cbn -[Z.add Z.of_nat numDiv]. rewrite Nat.add_0_r.
      repeat split; same_quotient.
    + simpl in Hj. destruct (IH (fst (trendStep totals g0 idx)) (S idx) j g Hj)
        as (p & Hp & Hl & Hs & Hr & Hn & Hlg & Hsu & Ht).
      exists p. split; [exact Hp|]. split; [exact Hl|].
      cbn -[Z.add Z.of_nat numDiv firstn countSum] in *.
      rewrite Hs, Hr, Hn, Hlg, Hsu, Ht.
      change (firstn (S (S j)) (g0 :: gs)) with (g0 :: firstn (S j) gs).
      rewrite !countSum_cons.
      cbn -[Z.add Z.of_nat numDiv firstn countSum].
      repeat split; same_quotient.
Qed.


Lemma numDiv_same (a b k k' : Z) :
  a = b -> k = k' -> numDiv a k = (inject_Z b / inject_Z k')%Q.
Proof. now intros -> ->. Qed.




(** C7, as amended.  The trend is a function of the input list and is
    computed over the games in ascending time order; two lists that are
    rearrangements of each other and list the games of every one time in
    the same order give the same trend. *)
Theorem trend_same_when_ties_keep_order (l l' : list GameRow) :
  Permutation l l' ->
  (forall t : Z, keyed timeOf t l = keyed timeOf t l') ->
  faultTrendData l = faultTrendData l' /\
  exists sorted,
    Permutation l sorted /\ ascending timeOf sorted /\
    faultTrendData l = trendMap noFaults 0%nat sorted.
Proof.
  intros _ Hk. split.
  - rewrite !faultTrendData_sorted. f_equal.
    apply (sort_keyed_unique _ timeOf); [apply byPlayedAtAsc_key|exact Hk].
  - exists (sort byPlayedAtAsc l).
    split; [apply sort_perm|].
    split; [apply (sort_ascending _ timeOf), byPlayedAtAsc_key|].
    apply faultTrendData_sorted.
Qed.


End TrendFacts.

(** ** The fault tally *)

Lemma getFault_setFault (k key : FaultKey) (v : Z) (f : Faults) :
  getFault k (setFault key v f) = if FaultKey_eqb k key then v else getFault k f.
Proof.
  destruct k, key; reflexivity.
Qed.

Lemma changeFault_nonneg (key : FaultKey) (delta : Z) (f : Faults) :
  (forall k, 0 <= getFault k f) ->
  forall k, 0 <= getFault k (changeFault key delta f).
Proof.
  intros Hf k. unfold changeFault. rewrite getFault_setFault.
  destruct (FaultKey_eqb k key); [lia | apply Hf].
Qed.

Lemma runActions_nonneg (acts : list TallyAction) :
  forall f,
    (forall k, 0 <= getFault k f) ->
    forall k, 0 <= getFault k (runActions acts f).
Proof.
  unfold runActions.
  induction acts as [|a acts IH]; intros f Hf k; simpl.
  - apply Hf.
  - apply IH. destruct a; simpl; now apply changeFault_nonneg.
Qed.

Lemma decrement_at_zero (k : FaultKey) (f : Faults) :
  getFault k f = 0 -> applyAction (Decrement k) f = f.
Proof.
  destruct f, k; simpl; unfold changeFault; simpl; intros ->; reflexivity.
Qed.

(** C2.  After every action of any sequence of increments and decrements
    on a fresh tally each of the five counters is at least 0; a decrement
    of a counter that is at 0 is defined and leaves the counter at 0 (and
    the tally as it was). *)
Theorem tally_counters_never_negative
  (acts : list TallyAction) (n : nat) (k : FaultKey) :
  0 <= getFault k (runActions (firstn n acts) noFaults) /\
  forall f : Faults,
    getFault k f = 0 ->
    getFault k (applyAction (Decrement k) f) = 0 /\
    applyAction (Decrement k) f = f.
Proof.
  split.
  - apply runActions_nonneg. intros []; simpl; lia.
  - intros f Hz. rewrite (decrement_at_zero k f Hz). now split.
Qed.

(** ** Handlers against a backend *)

Lemma no_insert_among (calls : list Event) (row : NewGame)
  (ri : Settled InsertResponse) :
  existsb isInsert calls = false -> ~ In (Inserted row ri) calls.
Proof.
  intros Hno Hin.
  assert (Hyes : existsb isInsert calls = true).
  { apply existsb_exists. exists (Inserted row ri). now split. }
  congruence.
Qed.

Section HandlerFacts.
Context {host : Host} {W : Type} (B : Backend W).

Lemma run_asyncBind {X Y : Type} (m : Async X) (f : X -> Async Y) :
  forall w,
    run B (asyncBind m f) w
    = let '(a, w1, tr1) := run B m w in
      let '(b, w2, tr2) := run B (f a) w1 in
      (b, w2, tr1 ++ tr2).
Proof.
  induction m as [a|k IH|row k IH|q k IH]; intros w; simpl.
  - destruct (run B (f a) w) as [[b w2] tr2]. reflexivity.
  - destruct (getUser B w) as [r w1]. rewrite IH.
    destruct (run B (k r) w1) as [[a w2] tr1].
    destruct (run B (f a) w2) as [[b w3] tr2]. reflexivity.
  - destruct (insert B row w) as [r w1]. rewrite IH.
    destruct (run B (k r) w1) as [[a w2] tr1].
    destruct (run B (f a) w2) as [[b w3] tr2]. reflexivity.
  - destruct (select B q w) as [r w1]. rewrite IH.
    destruct (run B (k r) w1) as [[a w2] tr1].
    destruct (run B (f a) w2) as [[b w3] tr2]. reflexivity.
Qed.

Lemma run_parts {X : Type} (t : Task X) (s : Dash) (w : W) :
  run B (t s) w
  = (fst (fst (fst (run B (t s) w))), stateAfter B t s w,
     worldAfter B t s w, callsOf B t s w).
Proof.
  unfold stateAfter, worldAfter, callsOf.
  destruct (run B (t s) w) as [[[c s'] w'] tr]. reflexivity.
Qed.

(** The four ways [loadGames] ends. *)
Lemma loadGames_cases (s : Dash) (w : W) :
  let s0 := withError None (withLoadingGames true s) in
  exists r w1,
    getUser B w = (r, w1) /\
    ((resolvedUser r = None /\
      run B (loadGames s) w
      = (Normal tt,
         withLoadingGames false
           (withError (Some (message (signInFailure r) ?? js "Failed to load games")) s0),
         w1, [GotUser r]))
     \/
     (exists u rq w2,
        resolvedUser r = Some u /\
        let q := {| eq_user_id := uid u; order_ascending := false; limit := 25 |} in
        select B q w1 = (rq, w2) /\
        ((exists e,
            (rq = Rejected e \/
             exists d, rq = Fulfilled {| data := d; select_error := Some e |}) /\
            run B (loadGames s) w
            = (Normal tt,
               withLoadingGames false
                 (withError (Some (message e ?? js "Failed to load games")) s0),
               w2, [GotUser r; Selected q rq]))
         \/
         (exists d,
            rq = Fulfilled {| data := d; select_error := None |} /\
            run B (loadGames s) w
            = (Normal tt, withLoadingGames false (withGames (d ?? []) s0),
               w2, [GotUser r; Selected q rq]))))).
Proof.
  intros s0. destruct (getUser B w) as [r w1] eqn:Hg.
  exists r, w1. split; [reflexivity|].
  unfold loadGames. cbn. rewrite Hg.
  destruct r as [[u [e|]]|e]; cbn.
  - left. split; reflexivity.
  - destruct u as [u|]; cbn.
    + right.
      destruct (select B {| eq_user_id := uid u; order_ascending := false;
                            limit := 25 |} w1) as [rq w2] eqn:Hq.
      exists u, rq, w2. split; [reflexivity|]. split; [exact Hq|].
      destruct rq as [[d [e|]]|e]; cbn.
      * left. exists e. split; [right; now exists d | reflexivity].
      * right. exists d. split; reflexivity.
      * left. exists e. split; [now left | reflexivity].
    + left. split; reflexivity.
  - left. split; reflexivity.
Qed.


(** [loadGames] completes normally, touches only [games], [error] and
    [loadingGames], and writes nothing. *)
Lemma loadGames_frame (s : Dash) (w : W) :
  let s' := stateAfter B loadGames s w in
  fst (fst (fst (run B (loadGames s) w))) = Normal tt /\
  date s' = date s /\ time s' = time s /\
  myPoints s' = myPoints s /\ oppPoints s' = oppPoints s /\
  location s' = location s /\ faults s' = faults s /\
  editingFault s' = editingFault s /\ adding s' = adding s /\
  existsb isInsert (callsOf B loadGames s w) = false.
Proof.
  unfold stateAfter, callsOf.
  destruct (loadGames_cases s w)
    as (r & w1 & _ & [[_ E]|(u & rq & w2 & _ & _ & [(e & _ & E)|(d & _ & E)])]);
    rewrite E; cbn; repeat split.
Qed.

(** The four ways [addGame] ends. *)
Lemma addGame_cases (view s : Dash) (w : W) :
  exists r w1,
    getUser B w = (r, w1) /\
    ((resolvedUser r = None /\
      run B (addGame view s) w
      = (Normal tt, failedWith (signInFailure r) "Failed to add game" s,
         w1, [GotUser r]))
     \/
     (exists u,
        resolvedUser r = Some u /\
        ((exists e,
            toPlayedAt (date view) (time view) = inl e /\
            run B (addGame view s) w
            = (Normal tt, failedWith e "Failed to add game" s, w1, [GotUser r]))
         \/
         (exists iso ri w2,
            toPlayedAt (date view) (time view) = inr iso /\
            insert B (newGame view u iso) w1 = (ri, w2) /\
            ((exists e,
                insertFailure ri = Some e /\
                run B (addGame view s) w
                = (Normal tt, failedWith e "Failed to add game" s, w2,
                   [GotUser r; Inserted (newGame view u iso) ri]))
             \/
             (insertFailure ri = None /\
              let s1 := withFaults noFaults (started s) in
              run B (addGame view s) w
              = (Normal tt, withAdding false (stateAfter B loadGames s1 w2),
                 worldAfter B loadGames s1 w2,
                 GotUser r :: Inserted (newGame view u iso) ri
                 :: callsOf B loadGames s1 w2))))))).
Proof.
  destruct (getUser B w) as [r w1] eqn:Hg.
  exists r, w1. split; [reflexivity|].
  unfold addGame. cbn -[loadGames]. rewrite Hg.
  destruct r as [[u [e|]]|e]; cbn -[loadGames];
    try (left; split; reflexivity).
  destruct u as [u|]; cbn -[loadGames]; [|left; split; reflexivity].
  right. exists u. split; [reflexivity|].
  unfold playedAtOf.
  destruct (toPlayedAt (date view) (time view)) as [e|iso] eqn:Ht;
    cbn -[loadGames].
  { left. exists e. split; reflexivity. }
  right.
  destruct (insert B (newGame view u iso) w1) as [ri w2] eqn:Hi.
  exists iso, ri, w2. split; [reflexivity|]. split; [exact Hi|].
  destruct ri as [[[e|]]|e]; cbn -[loadGames].
  - left. exists e. split; reflexivity.
  - right. split; [reflexivity|].
    rewrite !run_asyncBind.
    rewrite (run_parts loadGames). unfold started.
    destruct (loadGames_frame
                (withFaults noFaults (withAdding true (withError None s))) w2)
      as [-> _].
    cbn. now rewrite !app_nil_r.
  - left. exists e. split; reflexivity.
Qed.


(** Whatever the backend, the one query of [loadGames] asks for the rows of
    the identity just resolved, most recent first, at most 25 of them; a
    null [data] without an error is shown as no games. *)
Lemma loadGames_query (s : Dash) (w : W) (q : SelectQuery)
  (rq : Settled SelectResponse) :
  In (Selected q rq) (callsOf B loadGames s w) ->
  (exists u,
     resolvedUser (fst (getUser B w)) = Some u /\
     q = {| eq_user_id := uid u; order_ascending := false; limit := 25 |}) /\
  forall d,
    rq = Fulfilled {| data := d; select_error := None |} ->
    games (stateAfter B loadGames s w) = d ?? [] /\
    error (stateAfter B loadGames s w) = None.
Proof.
  unfold stateAfter, callsOf.
  destruct (loadGames_cases s w)
    as (r & w1 & Hg & [[_ E]|(u & rq' & w2 & Hu & _ & [(e & Hrq & E)|(d' & Hrq & E)])]);
    rewrite E, Hg; cbn; intros Hin.
  - destruct Hin as [Hin|[]]. discriminate.
  - destruct Hin as [Hin|[Hin|[]]]; [discriminate|]. injection Hin as <- <-.
    split; [now exists u|].
    intros d ->. destruct Hrq as [Hrq|[d' Hrq]]; discriminate.
  - destruct Hin as [Hin|[Hin|[]]]; [discriminate|]. injection Hin as <- <-.
    split; [now exists u|].
    intros d ->. injection Hrq as ->. now split.
Qed.

(** C3.  When the submission reaches the write and the write fails, the
    error shown is the failure's message (the stock message when it has
    none), the fault tally is as it was and nothing more is asked of the
    backend; when the write succeeds, the tally is all zeros and the rest
    of the submission is a run of [loadGames]. *)
Theorem write_failure_keeps_tally_success_resets_it
  (view s : Dash) (w : W) (row : NewGame) (ri : Settled InsertResponse) :
  In (Inserted row ri) (callsOf B (addGame view) s w) ->
  let s' := stateAfter B (addGame view) s w in
  match insertFailure ri with
  | Some e =>
      error s' = Some (message e ?? js "Failed to add game") /\
      faults s' = faults s /\
      exists r, callsOf B (addGame view) s w = [GotUser r; Inserted row ri]
  | None =>
      let reset := withFaults noFaults (started s) in
      faults reset = noFaults /\
      faults s' = noFaults /\
      exists r w2,
        callsOf B (addGame view) s w
        = GotUser r :: Inserted row ri :: callsOf B loadGames reset w2 /\
        s' = withAdding false (stateAfter B loadGames reset w2)
  end.
Proof.
  unfold stateAfter at 1. unfold callsOf at 1 2 3.
  destruct (addGame_cases view s w)
    as (r & w1 & _ & [[_ E]|(u & _ & [(e & _ & E)|(iso & ri' & w2 & _ & _ &
         [(e & Hf & E)|[Hf E]])])]);
    rewrite E; cbn -[loadGames]; intros Hin.
  - destruct Hin as [Hin|[]]. discriminate.
  - destruct Hin as [Hin|[]]. discriminate.
  - destruct Hin as [Hin|[Hin|[]]]; [discriminate|]. injection Hin as <- <-.
    rewrite Hf. repeat split. now exists r.
  - destruct Hin as [Hin|[Hin|Hin]]; [discriminate| |].
    + injection Hin as <- <-. rewrite Hf. cbn -[loadGames].
      destruct (loadGames_frame (withFaults noFaults (started s)) w2)
        as (_ & _ & _ & _ & _ & _ & Hfl & _).
      repeat split; [exact Hfl|]. now exists r, w2.
    + destruct (loadGames_frame (withFaults noFaults (started s)) w2)
        as (_ & _ & _ & _ & _ & _ & _ & _ & _ & Hni).
      now apply (no_insert_among _ row ri) in Hni.
Qed.

(** C4.  When the identity asked of the backend at submission resolves to
    no user, the submission ends with the error of that answer set
    ("Not signed in" when the answer is a bare null user), the identity
    call is the only call made, so no row is written, and the tally is as
    it was. *)
Theorem submission_without_identity_writes_nothing
  (view s : Dash) (w : W) :
  resolvedUser (fst (getUser B w)) = None ->
  let r := fst (getUser B w) in
  let s' := stateAfter B (addGame view) s w in
  callsOf B (addGame view) s w = [GotUser r] /\
  existsb isInsert (callsOf B (addGame view) s w) = false /\
  worldAfter B (addGame view) s w = snd (getUser B w) /\
  error s' = Some (message (signInFailure r) ?? js "Failed to add game") /\
  (r = Fulfilled {| data_user := None; auth_error := None |} ->
   error s' = Some (js "Not signed in")) /\
  faults s' = faults s.
Proof.
  unfold stateAfter, callsOf, worldAfter.
  destruct (addGame_cases view s w)
    as (r & w1 & Hg & [[_ E]|(u & Hu & _)]); rewrite Hg; cbn [fst snd].
  - intros _. rewrite E. cbn. repeat split. now intros ->.
  - intros Hn. congruence.
Qed.

(** C9.  The row handed to the store carries the form's location with the
    white space at its ends removed, and null when nothing is left: it is
    never the empty string. *)
Theorem stored_location_is_trimmed_or_null
  (view s : Dash) (w : W) (row : NewGame) (ri : Settled InsertResponse) :
  In (Inserted row ri) (callsOf B (addGame view) s w) ->
  (trim (location view) = [] -> new_location row = None) /\
  (trim (location view) <> [] ->
   new_location row = Some (trim (location view))) /\
  new_location row <> Some [].
Proof.
  assert (Hloc : forall u iso,
             let l := new_location (newGame view u iso) in
             (trim (location view) = [] -> l = None) /\
             (trim (location view) <> [] -> l = Some (trim (location view))) /\
             l <> Some []).
  { intros u iso. cbn. unfold locationOrNull.
    destruct (trim (location view)); repeat split; congruence. }
  unfold callsOf.
  destruct (addGame_cases view s w)
    as (r & w1 & _ & [[_ E]|(u & _ & [(e & _ & E)|(iso & ri' & w2 & _ & _ &
         [(e & Hf & E)|[Hf E]])])]);
    rewrite E; cbn -[loadGames newGame]; intros Hin.
  - destruct Hin as [Hin|[]]. discriminate.
  - destruct Hin as [Hin|[]]. discriminate.
  - destruct Hin as [Hin|[Hin|[]]]; [discriminate|]. injection Hin as <- <-.
    apply Hloc.
  - destruct Hin as [Hin|[Hin|Hin]]; [discriminate| |].
    + injection Hin as <- <-. apply Hloc.
    + destruct (loadGames_frame (withFaults noFaults (started s)) w2)
        as (_ & _ & _ & _ & _ & _ & _ & _ & _ & Hni).
      now apply (no_insert_among _ row ri) in Hni.
Qed.

(** C10.  After a submission whose write succeeded the five fault counters
    are zero and the date, time, two scores and location of the form are
    what they were before it. *)
Theorem successful_submission_resets_only_the_faults
  (view s : Dash) (w : W) (row : NewGame) (ri : Settled InsertResponse) :
  In (Inserted row ri) (callsOf B (addGame view) s w) ->
  insertFailure ri = None ->
  let s' := stateAfter B (addGame view) s w in
  faults s' = noFaults /\
  date s' = date s /\ time s' = time s /\
  myPoints s' = myPoints s /\ oppPoints s' = oppPoints s /\
  location s' = location s.
Proof.
  unfold stateAfter at 1. unfold callsOf.
  destruct (addGame_cases view s w)
    as (r & w1 & _ & [[_ E]|(u & _ & [(e & _ & E)|(iso & ri' & w2 & _ & _ &
         [(e & Hf & E)|[Hf E]])])]);
    rewrite E; cbn -[loadGames]; intros Hin Hok.
  - destruct Hin as [Hin|[]]. discriminate.
  - destruct Hin as [Hin|[]]. discriminate.
  - destruct Hin as [Hin|[Hin|[]]]; [discriminate|]. injection Hin as <- <-.
    congruence.
  - destruct (loadGames_frame (withFaults noFaults (started s)) w2)
      as (_ & Hd & Ht & Hm & Ho & Hl & Hfl & _).
    repeat split; assumption.
Qed.

End HandlerFacts.

(** ** The hosted store *)

Lemma JsString_eqb_eq (a b : JsString) : JsString_eqb a b = true <-> a = b.
Proof.
  unfold JsString_eqb. destruct (list_eq_dec N.eq_dec a b); split;
    intros; trivial; discriminate || contradiction.
Qed.

Lemma JsString_eqb_refl (a : JsString) : JsString_eqb a a = true.
Proof. now apply JsString_eqb_eq. Qed.

Lemma firstn_incl {X : Type} (n : nat) (l : list X) (x : X) :
  In x (firstn n l) -> In x l.
Proof.
  intros Hin. rewrite <- (firstn_skipn n l). apply in_or_app. now left.
Qed.

Lemma Sorted_firstn {X : Type} (R : X -> X -> Prop) (l : list X) :
  forall n, Sorted R l -> Sorted R (firstn n l).
Proof.
  induction l as [|x l IH]; intros [|n] Hs; simpl; try constructor.
  - apply IH. now inversion Hs.
  - inversion Hs as [|? ? _ Hhd]; subst.
    destruct l as [|y l]; destruct n; simpl; constructor.
    now inversion Hhd.
Qed.

Lemma Sorted_weaken {X : Type} (R R' : X -> X -> Prop) (l : list X) :
  (forall a b, R a b -> R' a b) -> Sorted R l -> Sorted R' l.
Proof.
  intros Himp. induction 1 as [|x l _ IH Hhd]; constructor; trivial.
  destruct Hhd; constructor. now apply Himp.
Qed.

Section HostedStoreFacts.
Context {host : Host}.

Lemma storeRows_from_table (st : Store) (q : SelectQuery) (g : GameRow) :
  In g (storeRows st q) ->
  exists sg, In sg (table st) /\ visibleTo st q sg = true /\ stored sg = g.
Proof.
  unfold storeRows. intros Hin.
  apply firstn_incl in Hin.
  apply (Permutation_in _ (Permutation_sym (sort_perm _ _ _))) in Hin.
  apply in_map_iff in Hin. destruct Hin as (sg & Hst & Hf).
  apply filter_In in Hf. destruct Hf as [Ht Hv].
  now exists sg.
Qed.

Lemma storeRows_descending (st : Store) (q : SelectQuery) :
  order_ascending q = false ->
  Sorted (fun a b => timeOf b <= timeOf a) (storeRows st q).
Proof.
  intros Hq. unfold storeRows. rewrite Hq.
  apply Sorted_firstn.
  apply (Sorted_weaken (fun a b => - timeOf a <= - timeOf b)).
  - intros a b. lia.
  - apply (sort_ascending _ (fun g => - timeOf g)).
    intros a b. unfold byPlayedAtDesc. lia.
Qed.

Lemma filter_none {X : Type} (f : X -> bool) (l : list X) :
  (forall x, In x l -> f x = false) -> filter f l = [].
Proof.
  induction l as [|x l IH]; intros Hf; simpl; trivial.
  rewrite (Hf x (or_introl eq_refl)). apply IH.
  intros y Hy. apply Hf. now right.
Qed.

(** C6.  For a signed-in user the hosted store answers [loadGames] with the
    25 most recent of the user's own rows: the list shown has at most 25
    games, each a stored row owned by the user, most recent first, and no
    error is set; when the user owns no row the list is empty, again with
    no error. *)
Theorem recent_games_of_the_signed_in_user (st : Store) (u : User) (s : Dash) :
  session st = Some u ->
  let s' := stateAfter hostedStore loadGames s st in
  let mine := filter (fun sg => JsString_eqb (owner sg) (uid u)) (table st) in
  games s' = firstn 25 (sort byPlayedAtDesc (List.map stored mine)) /\
  (List.length (games s') <= 25)%nat /\
  Forall (fun g => exists sg,
            In sg (table st) /\ owner sg = uid u /\ stored sg = g) (games s') /\
  Sorted (fun a b => timeOf b <= timeOf a) (games s') /\
  error s' = None /\
  ((forall sg, In sg (table st) -> owner sg <> uid u) ->
   games s' = [] /\ error s' = None).
Proof.
  intros Hs s' mine.
  set (q := {| eq_user_id := uid u; order_ascending := false; limit := 25 |}).
  assert (Hrun : s' = withLoadingGames false
                        (withGames (storeRows st q)
                           (withError None (withLoadingGames true s)))).
  { subst s'. unfold stateAfter, loadGames. cbn. unfold storeGetUser.
    rewrite Hs. reflexivity. }
  assert (Hvis : forall sg,
             visibleTo st q sg = JsString_eqb (owner sg) (uid u)).
  { intros sg. unfold visibleTo, policyAllows. rewrite Hs. cbn.
    destruct (JsString_eqb (owner sg) (uid u)) eqn:E.
    - apply JsString_eqb_eq in E. rewrite E.
      now rewrite JsString_eqb_refl.
    - apply andb_false_r. }
  assert (Hrows : storeRows st q
                  = firstn 25 (sort byPlayedAtDesc (List.map stored mine))).
  { unfold storeRows, mine.
    change (limit q) with 25%nat. change (order_ascending q) with false.
    now rewrite (filter_ext _ _ Hvis). }
  rewrite Hrun. cbn [games error withLoadingGames withGames withError].
  split; [exact Hrows|].
  split; [rewrite Hrows; apply firstn_le_length|].
  split.
  { apply Forall_forall. intros g Hg.
    destruct (storeRows_from_table st q g Hg) as (sg & Hin & Hv & Hst).
    exists sg. rewrite Hvis in Hv. apply JsString_eqb_eq in Hv. auto. }
  split; [now apply storeRows_descending|].
  split; [reflexivity|].
  intros Hnone. split; [|reflexivity].
  rewrite Hrows. unfold mine. rewrite filter_none; [reflexivity|].
  intros sg Hin. destruct (JsString_eqb (owner sg) (uid u)) eqn:E; trivial.
  apply JsString_eqb_eq in E. now apply Hnone in Hin.
Qed.

End HostedStoreFacts.

(** ** [trim] *)

Lemma trimStart_spec (s : JsString) :
  exists pre,
    s = pre ++ trimStart s /\
    forallb isTrimSpace pre = true /\
    forall c rest, trimStart s = c :: rest -> isTrimSpace c = false.
Proof.
  induction s as [|c s (pre & Hs & Hpre & Hhd)]; simpl.
  - exists []. repeat split. discriminate.
  - destruct (isTrimSpace c) eqn:E.
    + exists (c :: pre). simpl. rewrite E, Hpre. repeat split; trivial.
      now rewrite <- Hs.
    + exists []. repeat split. intros c' rest [= <- _]. exact E.
Qed.

Lemma forallb_rev {X : Type} (f : X -> bool) (l : list X) :
  forallb f l = true -> forallb f (rev l) = true.
Proof.
  rewrite !forallb_forall. intros H x Hx. apply H. now apply in_rev.
Qed.

(** [trim] removes a run of white space from each end and leaves a string
    that neither starts nor ends with white space. *)
Lemma trim_spec (s : JsString) :
  exists pre post,
    s = pre ++ trim s ++ post /\
    forallb isTrimSpace pre = true /\
    forallb isTrimSpace post = true /\
    (forall c rest, trim s = c :: rest -> isTrimSpace c = false) /\
    (forall c front, trim s = front ++ [c] -> isTrimSpace c = false).
Proof.
  unfold trim, trimEnd.
  destruct (trimStart_spec s) as (pre & Hs & Hpre & Hhd).
  destruct (trimStart_spec (rev (trimStart s))) as (post & Hm & Hpost & Hlast).
  set (m := trimStart s) in *. set (core := trimStart (rev m)) in *.
  assert (Hmid : m = rev core ++ rev post).
  { rewrite <- rev_app_distr, <- Hm. now rewrite rev_involutive. }
  exists pre, (rev post). repeat split.
  - now rewrite <- Hmid.
  - exact Hpre.
  - now apply forallb_rev.
  - intros c rest Hc. apply (Hhd c (rest ++ rev post)).
    now rewrite Hmid, Hc.
  - intros c front Hc. apply (Hlast c (rev front)).
    rewrite <- (rev_involutive core), Hc, rev_app_distr. reflexivity.
Qed.

(** ** Worked cases *)

(** Two games with 2 and 4 serve faults, in that order of play: the serve
    averages are 2 and 3. *)
Example serve_averages_two_then_three :
  let trend := @faultTrendData Sample.utc [Sample.g2; Sample.g1] in
  List.map tp_serve trend = [2 # 1; 6 # 2]%Q /\
  Forall2 Qeq (List.map tp_serve trend) [2; 3]%Q.
Proof.
  split; [reflexivity|].
  repeat constructor.
Qed.

(** A user who owns no row is shown no games and no error. *)
Example no_rows_no_error :
  let s' := stateAfter (@hostedStore Sample.utc) loadGames Sample.form
              Sample.emptyShelf in
  games s' = [] /\ error s' = None /\ loadingGames s' = false.
Proof.
  repeat split.
Qed.

(** The sample form, submitted by a signed-in user to a store that takes
    the row and then lists three games. *)
Example submitted_form :
  let B := scripted Sample.signedIn Sample.written Sample.listed in
  let s' := stateAfter B (@addGame Sample.utc Sample.form) Sample.form tt in
  List.filter isInsert (callsOf B (@addGame Sample.utc Sample.form) Sample.form tt)
  = [Inserted Sample.submitted Sample.written] /\
  faults s' = noFaults /\ games s' = Sample.played /\ error s' = None /\
  location s' = js "  Court 3 ".
Proof.
  repeat split.
Qed.

(** C7 fails as stated.  Two games played at the same time, with 2 and 4
    serve faults: the two orders of the input are rearrangements of each
    other, and the first point of the trend is 2 for one and 4 for the
    other. *)
Lemma tied_games_in_two_orders_differ :
  Permutation [Sample.tieA; Sample.tieB] [Sample.tieB; Sample.tieA] /\
  List.map tp_serve (@faultTrendData Sample.utc [Sample.tieA; Sample.tieB])
  = [2 # 1; 6 # 2]%Q /\
  List.map tp_serve (@faultTrendData Sample.utc [Sample.tieB; Sample.tieA])
  = [4 # 1; 6 # 2]%Q /\
  @faultTrendData Sample.utc [Sample.tieA; Sample.tieB]
  <> @faultTrendData Sample.utc [Sample.tieB; Sample.tieA].
Proof.
  split; [apply perm_swap|].
  split; [reflexivity|].
  split; [reflexivity|].
  intros H. apply (f_equal (List.map tp_serve)) in H. vm_compute in H.
  discriminate.
Qed.

(** ** The theorems at the sample data *)


Lemma tally_counters_never_negative_witness :
  getFault serve noFaults = 0 /\
  0 <= getFault serve (runActions (firstn 3 Sample.taps) noFaults) /\
  getFault serve (applyAction (Decrement serve) noFaults) = 0 /\
  applyAction (Decrement serve) noFaults = noFaults.
Proof.
  split; [reflexivity|].
  destruct (tally_counters_never_negative Sample.taps 3 serve) as [Hge Hdec].
  split; [exact Hge|].
  apply Hdec. reflexivity.
Defined.

Lemma write_failure_keeps_tally_witness :
  let B := scripted Sample.signedIn Sample.refused Sample.listed in
  let calls := callsOf B (@addGame Sample.utc Sample.form) Sample.form tt in
  let s' := stateAfter B (@addGame Sample.utc Sample.form) Sample.form tt in
  In (Inserted Sample.submitted Sample.refused) calls /\
  error s' = Some (js "permission denied for table games") /\
  faults s' = faults Sample.form /\
  exists r, calls = [GotUser r; Inserted Sample.submitted Sample.refused].
Proof.
  intros B calls s'.
  assert (Hin : In (Inserted Sample.submitted Sample.refused) calls)
    by (right; left; reflexivity).
  split; [exact Hin|].
  exact (@write_failure_keeps_tally_success_resets_it Sample.utc unit B
           Sample.form Sample.form tt Sample.submitted Sample.refused Hin).
Defined.

Lemma submission_without_identity_witness :
  let B := scripted Sample.signedOut Sample.written Sample.listed in
  let r := fst (getUser B tt) in
  let s' := stateAfter B (@addGame Sample.utc Sample.form) Sample.form tt in
  resolvedUser r = None /\
  callsOf B (@addGame Sample.utc Sample.form) Sample.form tt = [GotUser r] /\
  existsb isInsert (callsOf B (@addGame Sample.utc Sample.form) Sample.form tt)
  = false /\
  worldAfter B (@addGame Sample.utc Sample.form) Sample.form tt
  = snd (getUser B tt) /\
  error s' = Some (message (signInFailure r) ?? js "Failed to add game") /\
  (r = Fulfilled {| data_user := None; auth_error := None |} ->
   error s' = Some (js "Not signed in")) /\
  faults s' = faults Sample.form.
Proof.
  intros B r s'.
  split; [reflexivity|].
  apply (@submission_without_identity_writes_nothing Sample.utc unit B
           Sample.form Sample.form tt).
  reflexivity.
Defined.

Lemma stored_location_witness :
  let B := scripted Sample.signedIn Sample.written Sample.listed in
  In (Inserted Sample.submitted Sample.written)
     (callsOf B (@addGame Sample.utc Sample.form) Sample.form tt) /\
  (trim (location Sample.form) = [] -> new_location Sample.submitted = None) /\
  (trim (location Sample.form) <> [] ->
   new_location Sample.submitted = Some (trim (location Sample.form))) /\
  new_location Sample.submitted <> Some [].
Proof.
  intros B.
  assert (Hin : In (Inserted Sample.submitted Sample.written)
                   (callsOf B (@addGame Sample.utc Sample.form) Sample.form tt))
    by (right; left; reflexivity).
  split; [exact Hin|].
  exact (@stored_location_is_trimmed_or_null Sample.utc unit B
           Sample.form Sample.form tt Sample.submitted Sample.written Hin).
Defined.

Lemma successful_submission_witness :
  let B := scripted Sample.signedIn Sample.written Sample.listed in
  let s' := stateAfter B (@addGame Sample.utc Sample.form) Sample.form tt in
  In (Inserted Sample.submitted Sample.written)
     (callsOf B (@addGame Sample.utc Sample.form) Sample.form tt) /\
  insertFailure Sample.written = None /\
  faults s' = noFaults /\
  date s' = date Sample.form /\ time s' = time Sample.form /\
  myPoints s' = myPoints Sample.form /\ oppPoints s' = oppPoints Sample.form /\
  location s' = location Sample.form.
Proof.
  intros B s'.
  assert (Hin : In (Inserted Sample.submitted Sample.written)
                   (callsOf B (@addGame Sample.utc Sample.form) Sample.form tt))
    by (right; left; reflexivity).
  split; [exact Hin|]. split; [reflexivity|].
  exact (@successful_submission_resets_only_the_faults Sample.utc unit B
           Sample.form Sample.form tt Sample.submitted Sample.written Hin
           eq_refl).
Defined.

Lemma recent_games_witness :
  let st := Sample.shelf in
  let u := Sample.alice in
  let s' := stateAfter (@hostedStore Sample.utc) loadGames Sample.form st in
  let mine := filter (fun sg => JsString_eqb (owner sg) (uid u)) (table st) in
  session st = Some u /\
  games s'
  = firstn 25 (sort (@byPlayedAtDesc Sample.utc) (List.map stored mine)) /\
  (List.length (games s') <= 25)%nat /\
  Forall (fun g => exists sg,
            In sg (table st) /\ owner sg = uid u /\ stored sg = g) (games s') /\
  Sorted (fun a b => @timeOf Sample.utc b <= @timeOf Sample.utc a) (games s') /\
  error s' = None /\
  ((forall sg, In sg (table st) -> owner sg <> uid u) ->
   games s' = [] /\ error s' = None).
Proof.
  intros st u s' mine.
  split; [reflexivity|].
  apply (@recent_games_of_the_signed_in_user Sample.utc Sample.shelf
           Sample.alice Sample.form).
  reflexivity.
Defined.

Lemma trend_same_when_ties_keep_order_witness :
  Permutation Sample.played Sample.shuffled /\
  (forall t : Z,
     keyed (@timeOf Sample.utc) t Sample.played
     = keyed (@timeOf Sample.utc) t Sample.shuffled) /\
  @faultTrendData Sample.utc Sample.played
  = @faultTrendData Sample.utc Sample.shuffled /\
  exists sorted,
    Permutation Sample.played sorted /\
    ascending (@timeOf Sample.utc) sorted /\
    @faultTrendData Sample.utc Sample.played
    = @trendMap Sample.utc noFaults 0%nat sorted.
Proof.
  assert (Hperm : Permutation Sample.played Sample.shuffled).
  { unfold Sample.played, Sample.shuffled.
    apply Permutation_sym, (Permutation_cons_app [Sample.g3; Sample.g2] []).
    apply Permutation_refl. }
  assert (Hties : forall t : Z,
             keyed (@timeOf Sample.utc) t Sample.played
             = keyed (@timeOf Sample.utc) t Sample.shuffled).
  { intros t. unfold keyed, Sample.played, Sample.shuffled. cbn [filter].
    change (@timeOf Sample.utc Sample.g1) with 1714557600000.
    change (@timeOf Sample.utc Sample.g2) with 1714641300000.
    change (@timeOf Sample.utc Sample.g3) with 1714761000000.
    destruct (Z.eqb_spec 1714557600000 t);
      destruct (Z.eqb_spec 1714641300000 t);
      destruct (Z.eqb_spec 1714761000000 t); try reflexivity; lia. }
  split; [exact Hperm|]. split; [exact Hties|].
  exact (@trend_same_when_ties_keep_order Sample.utc Sample.played
           Sample.shuffled Hperm Hties).
Defined.

(* ================================================================== *)
(** * Part 3.  More of the dashboard *)
(* ================================================================== *)

(** ** Taps on the fault editor *)

Lemma FaultKey_eqb_eq (a b : FaultKey) : FaultKey_eqb a b = true <-> a = b.
Proof.
  destruct a, b; simpl; split; intros H; trivial; discriminate.
Qed.

Lemma FaultKey_eqb_neq (a b : FaultKey) : a <> b -> FaultKey_eqb a b = false.
Proof.
  intros Hne. destruct (FaultKey_eqb a b) eqn:E; trivial.
  apply FaultKey_eqb_eq in E. contradiction.
Qed.

Lemma FaultKey_eqb_sym (a b : FaultKey) : FaultKey_eqb a b = FaultKey_eqb b a.
Proof. destruct a, b; reflexivity. Qed.

Lemma Faults_ext (f g : Faults) :
  (forall k, getFault k f = getFault k g) -> f = g.
Proof.
  intros H. destruct f, g.
  pose proof (H serve). pose proof (H return_). pose proof (H net).
  pose proof (H long). pose proof (H setup). simpl in *. congruence.
Qed.

Lemma getFault_changeFault (k key : FaultKey) (delta : Z) (f : Faults) :
  getFault k (changeFault key delta f)
  = if FaultKey_eqb k key then Z.max 0 (getFault key f + delta)
    else getFault k f.
Proof.
  unfold changeFault. apply getFault_setFault.
Qed.

(** X1.  Changes of two different counters can be made in either order:
    each leaves the other counter alone. *)
Theorem changes_of_different_counters_commute
  (key1 key2 : FaultKey) (d1 d2 : Z) (f : Faults) :
  key1 <> key2 ->
  changeFault key1 d1 (changeFault key2 d2 f)
  = changeFault key2 d2 (changeFault key1 d1 f) /\
  getFault key2 (changeFault key1 d1 f) = getFault key2 f.
Proof.
  intros Hne. split.
  - apply Faults_ext. intros k. rewrite !getFault_changeFault.
    rewrite (FaultKey_eqb_neq key1 key2 Hne).
    rewrite (FaultKey_eqb_neq key2 key1) by congruence.
    destruct (FaultKey_eqb k key1) eqn:E1; destruct (FaultKey_eqb k key2) eqn:E2;
      trivial.
    apply FaultKey_eqb_eq in E1, E2. congruence.
  - rewrite getFault_changeFault.
    now rewrite (FaultKey_eqb_neq key2 key1) by congruence.
Qed.

(** X2.  On a counter that is not negative, plus then minus gives back the
    tally; minus then plus gives it back too unless the counter was 0, in
    which case the counter ends at 1. *)
Theorem plus_then_minus_restores_the_tally (k : FaultKey) (f : Faults) :
  0 <= getFault k f ->
  applyAction (Decrement k) (applyAction (Increment k) f) = f /\
  getFault k (applyAction (Increment k) (applyAction (Decrement k) f))
  = Z.max 1 (getFault k f).
Proof.
  intros Hk. split.
  - apply Faults_ext. intros k'. simpl. rewrite !getFault_changeFault.
    rewrite (proj2 (FaultKey_eqb_eq k k) eq_refl).
    destruct (FaultKey_eqb k' k) eqn:E; trivial.
    apply FaultKey_eqb_eq in E. subst k'. lia.
  - simpl. rewrite !getFault_changeFault.
    rewrite (proj2 (FaultKey_eqb_eq k k) eq_refl). lia.
Qed.

Lemma runActions_bounds (key : FaultKey) (acts : list TallyAction) :
  forall f,
    0 <= getFault key f ->
    getFault key f + incrementsOf key acts - decrementsOf key acts
    <= getFault key (runActions acts f)
    <= getFault key f + incrementsOf key acts.
Proof.
  unfold runActions, incrementsOf, decrementsOf.
  induction acts as [|a acts IH]; intros f Hf; simpl.
  - lia.
  - assert (Hstep : 0 <= getFault key (applyAction a f)).
    { destruct a as [k|k]; simpl; rewrite getFault_changeFault;
        destruct (FaultKey_eqb key k); lia. }
    specialize (IH _ Hstep).
    destruct a as [k|k]; simpl in *; rewrite getFault_changeFault in IH;
      rewrite (FaultKey_eqb_sym k key);
      destruct (FaultKey_eqb key k) eqn:E; simpl;
      try (apply FaultKey_eqb_eq in E; subst k); lia.
Qed.

(** X3.  After any sequence of taps on a fresh tally a counter is at most
    the number of its plus taps, and at least that number less the number
    of its minus taps. *)
Theorem counter_between_its_taps (key : FaultKey) (acts : list TallyAction) :
  incrementsOf key acts - decrementsOf key acts
  <= getFault key (runActions acts noFaults)
  <= incrementsOf key acts.
Proof.
  pose proof (runActions_bounds key acts noFaults) as H.
  replace (getFault key noFaults) with 0 in H by (now destruct key).
  apply H. lia.
Qed.

(** ** Submitting and loading, on every path *)

Section HandlerPaths.
Context {host : Host} {W : Type} (B : Backend W).

(** What [addGame] leaves of the state, and what it asks. *)
Lemma addGame_frame (view s : Dash) (w : W) :
  let s' := stateAfter B (addGame view) s w in
  let calls := callsOf B (addGame view) s w in
  date s' = date s /\ time s' = time s /\
  myPoints s' = myPoints s /\ oppPoints s' = oppPoints s /\
  location s' = location s /\ editingFault s' = editingFault s /\
  adding s' = false /\
  (faults s' = faults s \/ faults s' = noFaults) /\
  (forall row ri, In (Inserted row ri) calls ->
     exists u iso,
       resolvedUser (fst (getUser B w)) = Some u /\
       toPlayedAt (date view) (time view) = inr iso /\
       row = newGame view u iso) /\
  (List.length (filter isInsert calls) <= 1)%nat /\
  (List.length (filter isSelect calls) <= 1)%nat.
Proof.
  unfold stateAfter, callsOf.
  destruct (addGame_cases B view s w)
    as (r & w1 & Hg & [[_ E]|(u & Hu & [(e & _ & E)|(iso & ri' & w2 & Ht & _ &
         [(e & Hf & E)|[Hf E]])])]);
    rewrite E, Hg; cbn -[loadGames newGame].
  - repeat split; auto. intros row ri [Hin|[]]. discriminate.
  - repeat split; auto. intros row ri [Hin|[]]. discriminate.
  - repeat split; auto.
    intros row ri [Hin|[Hin|[]]]; [discriminate|]. injection Hin as <- _.
    now exists u, iso.
  - destruct (loadGames_frame B (withFaults noFaults (started s)) w2)
      as (_ & Hd & Hti & Hm & Ho & Hl & Hfl & He & _ & Hni).
    unfold stateAfter, callsOf in *.
    repeat split; auto.
    + intros row ri [Hin|[Hin|Hin]]; [discriminate| |].
      * injection Hin as <- _. now exists u, iso.
      * now apply (no_insert_among _ row ri) in Hni.
    + rewrite (filter_none isInsert); [simpl; lia|].
      intros x Hx. destruct x; trivial.
      now apply (no_insert_among _ row r0) in Hni.
    + destruct (loadGames_cases B (withFaults noFaults (started s)) w2)
        as (r2 & w3 & _ & [[_ E2]|(u2 & rq & w4 & _ & _ &
             [(e2 & _ & E2)|(d & _ & E2)])]);
        rewrite E2; simpl; lia.
Qed.

(** X4.  A row handed to the store is the form as the clicked render saw
    it: the identity resolved in this very submission, the time of play
    computed from the form's date and time, the two scores, the trimmed
    location and the five counters, each under its column; a submission
    hands over at most one row and asks for the list at most once. *)
Theorem written_row_is_the_form
  (view s : Dash) (w : W) (row : NewGame) (ri : Settled InsertResponse) :
  In (Inserted row ri) (callsOf B (addGame view) s w) ->
  (exists u,
     resolvedUser (fst (getUser B w)) = Some u /\ new_user_id row = uid u) /\
  toPlayedAt (date view) (time view) = inr (new_played_at row) /\
  new_my_points row = myPoints view /\
  new_opp_points row = oppPoints view /\
  new_location row = locationOrNull (location view) /\
  new_serve_faults row = getFault serve (faults view) /\
  new_return_faults row = getFault return_ (faults view) /\
  new_into_net row = getFault net (faults view) /\
  new_too_long row = getFault long (faults view) /\
  new_setup_kill row = getFault setup (faults view) /\
  (List.length (filter isInsert (callsOf B (addGame view) s w)) <= 1)%nat /\
  (List.length (filter isSelect (callsOf B (addGame view) s w)) <= 1)%nat.
Proof.
  intros Hin.
  destruct (addGame_frame view s w)
    as (_ & _ & _ & _ & _ & _ & _ & _ & Hrow & Hone & Hsel).
  destruct (Hrow row ri Hin) as (u & iso & Hu & Ht & ->).
  split; [now exists u|].
  repeat split; trivial.
Qed.

(** X5.  However a submission ends, the button is enabled again
    ([adding] is false) and the editor is as it was; when no write
    succeeded, an error is shown and the tally, the list of games and the
    loading flag are untouched. *)
Theorem submission_that_wrote_nothing_changes_nothing
  (view s : Dash) (w : W) :
  let s' := stateAfter B (addGame view) s w in
  adding s' = false /\
  editingFault s' = editingFault s /\
  ((forall row ri,
      In (Inserted row ri) (callsOf B (addGame view) s w) ->
      insertFailure ri <> None) ->
   error s' <> None /\
   faults s' = faults s /\ games s' = games s /\
   loadingGames s' = loadingGames s).
Proof.
  intros s'.
  destruct (addGame_frame view s w) as (_ & _ & _ & _ & _ & He & Ha & _).
  split; [exact Ha|]. split; [exact He|].
  subst s'. unfold stateAfter, callsOf.
  destruct (addGame_cases B view s w)
    as (r & w1 & Hg & [[_ E]|(u & Hu & [(e & _ & E)|(iso & ri' & w2 & Ht & _ &
         [(e & Hf & E)|[Hf E]])])]);
    rewrite E; cbn -[loadGames newGame]; intros Hfail;
    try (repeat split; discriminate || reflexivity).
  exfalso. apply (Hfail (newGame view u iso) ri'); [now right; left | exact Hf].
Qed.

(** X6.  When the form's date and time give no valid time of play, the
    submission stops there: the identity call is the only call, the error
    is the message of what was thrown, and the tally is kept. *)
Theorem invalid_date_writes_nothing
  (view s : Dash) (w : W) (u : User) (e : JsError) :
  resolvedUser (fst (getUser B w)) = Some u ->
  toPlayedAt (date view) (time view) = inl e ->
  let s' := stateAfter B (addGame view) s w in
  callsOf B (addGame view) s w = [GotUser (fst (getUser B w))] /\
  error s' = Some (message e ?? js "Failed to add game") /\
  faults s' = faults s /\ adding s' = false.
Proof.
  unfold stateAfter, callsOf.
  destruct (addGame_cases B view s w)
    as (r & w1 & Hg & [[Hn E]|(u' & Hu & [(e' & Ht & E)|(iso & ri' & w2 & Ht & _)])]);
    rewrite Hg; cbn [fst]; intros Hres Hbad.
  - congruence.
  - rewrite E. cbn. rewrite Ht in Hbad. injection Hbad as <-. repeat split.
  - congruence.
Qed.

(** X7.  A load that got no answer without an error (no identity, an error
    from the store, a rejected promise) keeps the list that was shown and
    shows an error; every load ends with the loading flag off, and leaves
    the form, the tally and the button alone. *)
Theorem failed_load_keeps_the_list (s : Dash) (w : W) :
  let s' := stateAfter B loadGames s w in
  loadingGames s' = false /\
  faults s' = faults s /\ adding s' = adding s /\
  location s' = location s /\
  ((forall q d,
      ~ In (Selected q (Fulfilled {| data := d; select_error := None |}))
           (callsOf B loadGames s w)) ->
   games s' = games s /\ error s' <> None).
Proof.
  unfold stateAfter, callsOf.
  destruct (loadGames_cases B s w)
    as (r & w1 & _ & [[_ E]|(u & rq & w2 & _ & _ & [(e & _ & E)|(d & Hrq & E)])]);
    rewrite E; cbn.
  - repeat split; discriminate.
  - repeat split; discriminate.
  - split; [reflexivity|]. split; [reflexivity|]. split; [reflexivity|].
    split; [reflexivity|].
    intros Hno. exfalso.
    apply (Hno {| eq_user_id := uid u; order_ascending := false;
                  limit := 25 |} d).
    right. left. now rewrite Hrq.
Qed.

(** X8.  A load that resolves no identity asks the store nothing: the
    identity call is its only call, and the error is the message of the
    identity answer ("Not signed in" for a bare null user). *)
Theorem load_without_identity_asks_nothing (s : Dash) (w : W) :
  resolvedUser (fst (getUser B w)) = None ->
  let r := fst (getUser B w) in
  let s' := stateAfter B loadGames s w in
  callsOf B loadGames s w = [GotUser r] /\
  worldAfter B loadGames s w = snd (getUser B w) /\
  error s' = Some (message (signInFailure r) ?? js "Failed to load games") /\
  (r = Fulfilled {| data_user := None; auth_error := None |} ->
   error s' = Some (js "Not signed in")).
Proof.
  unfold stateAfter, callsOf, worldAfter.
  destruct (loadGames_cases B s w)
    as (r & w1 & Hg & [[_ E]|(u & rq & w2 & Hu & _)]); rewrite Hg; cbn [fst snd].
  - intros _. rewrite E. cbn. repeat split. now intros ->.
  - intros Hn. congruence.
Qed.

(** X22.  Whatever the backend, the one query of a load asks for the rows
    of the user just resolved, most recent first, at most 25 of them; when
    it comes back without an error the list shown is its [data], or no
    games when [data] is null, and no error is set. *)
Theorem load_asks_for_the_latest_25_of_the_user
  (s : Dash) (w : W) (q : SelectQuery) (rq : Settled SelectResponse) :
  In (Selected q rq) (callsOf B loadGames s w) ->
  (exists u,
     resolvedUser (fst (getUser B w)) = Some u /\
     eq_user_id q = uid u) /\
  order_ascending q = false /\ limit q = 25%nat /\
  forall d,
    rq = Fulfilled {| data := d; select_error := None |} ->
    games (stateAfter B loadGames s w) = d ?? [] /\
    error (stateAfter B loadGames s w) = None.
Proof.
  intros Hin.
  destruct (loadGames_query B s w q rq Hin) as [(u & Hu & ->) Hdata].
  split; [now exists u|].
  split; [reflexivity|]. split; [reflexivity|]. exact Hdata.
Qed.

End HandlerPaths.

(** ** A whole visit *)

Section SessionFacts.
Context {host : Host} {W : Type} (B : Backend W).




End SessionFacts.

(** ** More on the trend *)

Section TrendMore.
Context {host : Host}.

Lemma countSum_perm (pick : Faults -> Z) (l l' : list GameRow) :
  Permutation l l' -> countSum pick l = countSum pick l'.
Proof.
  induction 1; simpl; lia.
Qed.

Lemma last_point (games : list GameRow) (p : TrendPoint) :
  nth_error (faultTrendData games) (List.length games - 1) = Some p ->
  let n := Z.of_nat (List.length games) in
  tp_serve p = numDiv (countSum f_serve games) n /\
  tp_return p = numDiv (countSum f_return games) n /\
  tp_net p = numDiv (countSum f_net games) n /\
  tp_long p = numDiv (countSum f_long games) n /\
  tp_setup p = numDiv (countSum f_setup games) n /\
  tp_total p =
    numDiv (countSum f_serve games + countSum f_return games
            + countSum f_net games + countSum f_long games
            + countSum f_setup games) n.
Proof.
  rewrite faultTrendData_sorted.
  set (sorted := sort byPlayedAtAsc games).
  assert (Hperm : Permutation games sorted) by apply sort_perm.
  assert (Hlen : List.length sorted = List.length games)
    by apply sort_length.
  intros Hp.
  destruct (nth_error sorted (List.length games - 1)) as [g|] eqn:Hg.
  2:{ apply nth_error_None in Hg.
      assert (Hlt : (List.length games - 1 < List.length
                       (trendMap noFaults 0 sorted))%nat).
      { apply nth_error_Some. congruence. }
      rewrite trendMap_length in Hlt. lia. }
  assert (Hpos : (0 < List.length games)%nat).
  { assert (Hlt : (List.length games - 1 < List.length sorted)%nat)
      by (apply nth_error_Some; congruence). lia. }
  destruct (trendMap_nth sorted noFaults 0%nat _ g Hg)
    as (p' & Hp' & _ & Hs & Hr & Hn & Hl & Hsu & Ht).
  rewrite Hp in Hp'. injection Hp' as <-.
  replace (S (List.length games - 1)) with (List.length sorted) in * by lia.
  rewrite firstn_all in *.
  cbn -[Z.add Z.of_nat numDiv countSum] in *.
  rewrite Hs, Hr, Hn, Hl, Hsu, Ht.
  rewrite !(countSum_perm _ _ _ Hperm).
  repeat split; apply numDiv_same; lia.
Qed.

(** X10.  The last point of the trend holds the averages over all the
    games, so it does not depend on the order of the input, ties or not:
    two lists that are rearrangements of each other end on the same six
    averages. *)
Theorem last_point_ignores_the_input_order
  (l l' : list GameRow) (p p' : TrendPoint) :
  Permutation l l' ->
  nth_error (faultTrendData l) (List.length l - 1) = Some p ->
  nth_error (faultTrendData l') (List.length l' - 1) = Some p' ->
  tp_serve p = tp_serve p' /\ tp_return p = tp_return p' /\
  tp_net p = tp_net p' /\ tp_long p = tp_long p' /\
  tp_setup p = tp_setup p' /\ tp_total p = tp_total p' /\
  tp_serve p
  = (inject_Z (countSum f_serve l) / inject_Z (Z.of_nat (List.length l)))%Q /\
  tp_total p
  = (inject_Z (countSum f_serve l + countSum f_return l + countSum f_net l
               + countSum f_long l + countSum f_setup l)
     / inject_Z (Z.of_nat (List.length l)))%Q.
Proof.
  intros Hperm Hp Hp'.
  destruct (last_point l p Hp) as (Hs & Hr & Hn & Hl & Hsu & Ht).
  destruct (last_point l' p' Hp') as (Hs' & Hr' & Hn' & Hl' & Hsu' & Ht').
  rewrite Hs, Hr, Hn, Hl, Hsu, Ht, Hs', Hr', Hn', Hl', Hsu', Ht'.
  rewrite <- (Permutation_length Hperm).
  rewrite <- !(countSum_perm _ _ _ Hperm).
  repeat split.
Qed.

Lemma numDiv_nonneg (a k : Z) : 0 <= a -> 0 < k -> (0 <= numDiv a k)%Q.
Proof.
  intros Ha Hk. unfold numDiv. apply Qle_shift_div_l.
  - change 0%Q with (inject_Z 0). now rewrite <- Zlt_Qlt.
  - rewrite Qmult_0_l. change 0%Q with (inject_Z 0). now rewrite <- Zle_Qle.
Qed.

Lemma trendMap_nonneg (gs : list GameRow) :
  forall totals idx,
    (forall k, 0 <= getFault k totals) ->
    Forall (fun g => forall k, 0 <= getFault k (rowFaults g)) gs ->
    Forall (fun p =>
              (0 <= tp_serve p /\ 0 <= tp_return p /\ 0 <= tp_net p /\
               0 <= tp_long p /\ 0 <= tp_setup p /\ 0 <= tp_total p)%Q)
           (trendMap totals idx gs).
Proof.
  induction gs as [|g gs IH]; intros totals idx Ht Hgs; simpl.
  - constructor.
  - inversion Hgs as [|? ? Hg Hrest]; subst.
    pose proof (Ht serve). pose proof (Ht return_). pose proof (Ht net).
    pose proof (Ht long). pose proof (Ht setup).
    pose proof (Hg serve). pose proof (Hg return_). pose proof (Hg net).
    pose proof (Hg long). pose proof (Hg setup).
    cbn [getFault rowFaults f_serve f_return f_net f_long f_setup] in *.
    constructor.
    + cbn [tp_serve tp_return tp_net tp_long tp_setup tp_total
              f_serve f_return f_net f_long f_setup rowFaults].
      repeat split; apply numDiv_nonneg; lia.
    + apply IH; trivial.
      intros []; cbn [getFault rowFaults f_serve f_return f_net f_long f_setup];
        lia.
Qed.

(** X11.  When no count of any game is negative, no average of any point
    of the trend is negative. *)
Theorem averages_are_not_negative (games : list GameRow) :
  Forall (fun g => forall k, 0 <= getFault k (rowFaults g)) games ->
  Forall (fun p =>
            (0 <= tp_serve p /\ 0 <= tp_return p /\ 0 <= tp_net p /\
             0 <= tp_long p /\ 0 <= tp_setup p /\ 0 <= tp_total p)%Q)
         (faultTrendData games).
Proof.
  intros Hg. rewrite faultTrendData_sorted.
  apply trendMap_nonneg.
  - intros []; simpl; lia.
  - apply Forall_forall. intros g Hin. rewrite Forall_forall in Hg.
    apply Hg.
    apply (Permutation_in _ (Permutation_sym (sort_perm _ byPlayedAtAsc games))).
    exact Hin.
Qed.

End TrendMore.

(** ** Input that is already in order *)

Section SortMore.
Variable A : Type.
Variable key : A -> Z.
Variable compare : A -> A -> Z.
Hypothesis compare_key : forall a b, compare a b = key a - key b.

Lemma sortInsert_after_all (x : A) (l : list A) :
  Forall (fun y => key y < key x) l -> sortInsert compare x l = l ++ [x].
Proof.
  induction 1 as [|y l Hy _ IH]; simpl; trivial.
  rewrite compare_key.
  destruct (key x - key y <=? 0) eqn:E.
  - apply Z.leb_le in E. lia.
  - now rewrite IH.
Qed.

Lemma sortInsert_before_all (x : A) (l : list A) :
  HdRel (fun a b => key a <= key b) x l -> sortInsert compare x l = x :: l.
Proof.
  intros [|y l' Hy]; simpl; trivial.
  rewrite compare_key.
  destruct (key x - key y <=? 0) eqn:E; trivial.
  apply Z.leb_gt in E. lia.
Qed.

Lemma sort_of_descending (l : list A) :
  Sorted (fun a b => key b < key a) l -> sort compare l = rev l.
Proof.
  intros Hs. apply Sorted_StronglySorted in Hs; [|intros a b c; lia].
  induction Hs as [|x l _ IH Hall]; simpl; trivial.
  rewrite IH. apply sortInsert_after_all.
  apply Forall_rev. exact Hall.
Qed.

Lemma sort_of_ascending (l : list A) :
  ascending key l -> sort compare l = l.
Proof.
  unfold ascending. induction 1 as [|x l _ IH Hhd]; simpl; trivial.
  rewrite IH. now apply sortInsert_before_all.
Qed.

End SortMore.

Section TrendOrder.
Context {host : Host}.

(** X12.  Games listed most recent first, no two at the same time (the
    order the query asks for), are charted in the reverse of that order. *)
Theorem most_recent_first_is_charted_in_reverse (games : list GameRow) :
  Sorted (fun a b => timeOf b < timeOf a) games ->
  sort byPlayedAtAsc games = rev games /\
  faultTrendData games = trendMap noFaults 0%nat (rev games).
Proof.
  intros Hs.
  assert (Hrev : sort byPlayedAtAsc games = rev games).
  { apply (sort_of_descending _ timeOf); [apply byPlayedAtAsc_key | exact Hs]. }
  split; [exact Hrev|].
  now rewrite faultTrendData_sorted, Hrev.
Qed.

(** X13.  Games that are already in ascending time order, ties included,
    are charted in the order given. *)
Theorem chronological_input_is_charted_as_given (games : list GameRow) :
  ascending timeOf games ->
  sort byPlayedAtAsc games = games /\
  faultTrendData games = trendMap noFaults 0%nat games.
Proof.
  intros Hs.
  assert (Hid : sort byPlayedAtAsc games = games).
  { apply (sort_of_ascending _ timeOf); [apply byPlayedAtAsc_key | exact Hs]. }
  split; [exact Hid|].
  now rewrite faultTrendData_sorted, Hid.
Qed.

End TrendOrder.

(** ** What is written and what is read back *)

(** X14.  The five counters are written under the columns they are read
    from: a row whose five fault columns hold what a submission wrote
    reads back, through [rowFaults], as the tally that was submitted. *)
Theorem written_tally_reads_back
  (view : Dash) (u : User) (iso : JsString) (g : GameRow) :
  let row := newGame view u iso in
  serve_faults g = Some (new_serve_faults row) ->
  return_faults g = Some (new_return_faults row) ->
  into_net g = Some (new_into_net row) ->
  too_long g = Some (new_too_long row) ->
  setup_kill g = Some (new_setup_kill row) ->
  rowFaults g = faults view.
Proof.
  intros row Hs Hr Hn Hl Hk. unfold rowFaults.
  rewrite Hs, Hr, Hn, Hl, Hk. simpl. now destruct (faults view).
Qed.

(** ** The location *)

Lemma trimStart_blank (s : JsString) :
  trimStart s = [] <-> forallb isTrimSpace s = true.
Proof.
  induction s as [|c s IH]; simpl.
  - tauto.
  - destruct (isTrimSpace c); simpl; [exact IH|].
    split; discriminate.
Qed.

Lemma trim_blank (s : JsString) :
  trim s = [] <-> forallb isTrimSpace s = true.
Proof.
  split.
  - intros Ht. destruct (trim_spec s) as (pre & post & Hs & Hpre & Hpost & _).
    rewrite Ht in Hs. rewrite Hs. simpl. rewrite forallb_app.
    now rewrite Hpre, Hpost.
  - intros Hb. unfold trim, trimEnd.
    apply trimStart_blank in Hb. now rewrite Hb.
Qed.

(** X15.  A location is stored as null exactly when it consists of white
    space only (the empty location included). *)
Theorem blank_location_is_null (loc : JsString) :
  locationOrNull loc = None <-> forallb isTrimSpace loc = true.
Proof.
  rewrite <- trim_blank. unfold locationOrNull.
  destruct (trim loc); split; congruence.
Qed.

Lemma trimStart_fixed (s : JsString) :
  (forall c rest, s = c :: rest -> isTrimSpace c = false) -> trimStart s = s.
Proof.
  destruct s as [|c s]; simpl; trivial.
  intros H. now rewrite (H c s eq_refl).
Qed.

Lemma trim_fixed (s : JsString) :
  (forall c rest, s = c :: rest -> isTrimSpace c = false) ->
  (forall c front, s = front ++ [c] -> isTrimSpace c = false) ->
  trim s = s.
Proof.
  intros Hfirst Hlast. unfold trim, trimEnd.
  rewrite (trimStart_fixed s Hfirst).
  rewrite trimStart_fixed; [apply rev_involutive|].
  intros c rest Hrev. apply (Hlast c (rev rest)).
  rewrite <- (rev_involutive s), Hrev. reflexivity.
Qed.

(** X16.  A location that was stored is stored unchanged when submitted
    again: it is not empty, has no white space at either end, and trimming
    it gives it back. *)
Theorem stored_location_is_kept_when_resubmitted (loc t : JsString) :
  locationOrNull loc = Some t ->
  locationOrNull t = Some t /\
  t <> [] /\
  (forall c rest, t = c :: rest -> isTrimSpace c = false) /\
  (forall c front, t = front ++ [c] -> isTrimSpace c = false).
Proof.
  unfold locationOrNull. intros Hloc.
  destruct (trim_spec loc) as (_ & _ & _ & _ & _ & Hfirst & Hlast).
  destruct (trim loc) as [|c rest] eqn:Ht; [discriminate|].
  injection Hloc as <-.
  rewrite (trim_fixed (c :: rest) Hfirst Hlast).
  repeat split; trivial. discriminate.
Qed.

(** ** The hour and the minute *)

Lemma splitOn_whole (sep : N) (s : JsString) :
  ~ In sep s -> splitOn sep s = [s].
Proof.
  induction s as [|c s IH]; simpl; trivial.
  intros Hno. destruct (N.eqb_spec c sep) as [->|Hne].
  - exfalso. apply Hno. now left.
  - rewrite IH; [reflexivity|]. intros Hin. apply Hno. now right.
Qed.

Lemma splitOn_first (sep : N) (a b : JsString) :
  ~ In sep a -> splitOn sep (a ++ sep :: b) = a :: splitOn sep b.
Proof.
  induction a as [|c a IH]; simpl; intros Hno.
  - now rewrite N.eqb_refl.
  - destruct (N.eqb_spec c sep) as [->|Hne].
    + exfalso. apply Hno. now left.
    + rewrite IH; [reflexivity|]. intros Hin. apply Hno. now right.
Qed.

(** X17.  The hour is the text before the first colon and the minute the
    text between the first colon and the next (or the end); a time with no
    colon, the empty time included, is taken whole as the hour with "00"
    as the minute, so the default "00" of the hour is never used. *)
Theorem hour_and_minute_of_a_time (h m rest : JsString) :
  ~ In 58%N h -> ~ In 58%N m ->
  timeParts h = (h, js "00") /\
  timeParts (h ++ 58%N :: m) = (h, m) /\
  timeParts (h ++ 58%N :: m ++ 58%N :: rest) = (h, m).
Proof.
  intros Hh Hm. unfold timeParts. repeat split.
  - now rewrite splitOn_whole.
  - now rewrite splitOn_first, splitOn_whole.
  - rewrite splitOn_first by trivial. rewrite splitOn_first by trivial.
    reflexivity.
Qed.

(** ** The password and sign-in pages *)

Lemma JsString_eqb_neq (a b : JsString) : a <> b -> JsString_eqb a b = false.
Proof.
  intros Hne. destruct (JsString_eqb a b) eqn:E; trivial.
  apply JsString_eqb_eq in E. contradiction.
Qed.

(** X18.  A new password shorter than 6 code units, or one that differs
    from its confirmation, is not sent: nothing is asked of the identity
    service, the error says which check failed (the length first), no
    success message is set and the saving flag is not touched. *)
Theorem bad_new_password_is_not_sent
  (answer : AuthCall -> Settled AuthResponse) (view s : ResetPage.Form) :
  (List.length (ResetPage.password view) < 6)%nat \/
  ResetPage.password view <> ResetPage.confirm view ->
  let s' := pageAfter answer (ResetPage.onSubmit view) s in
  eventsOf answer (ResetPage.onSubmit view) s = [Did preventDefault] /\
  ResetPage.err s'
  = Some (if (List.length (ResetPage.password view) <? 6)%nat
          then js "Password must be at least 6 characters."
          else js "Passwords do not match.") /\
  ResetPage.msg s' = None /\
  ResetPage.saving s' = ResetPage.saving s.
Proof.
  intros Hbad. unfold pageAfter, eventsOf, ResetPage.onSubmit.
  destruct (Nat.ltb_spec (List.length (ResetPage.password view)) 6) as [Hlt|Hge].
  - cbn -[Z.ltb Z.of_nat List.length js].
    destruct (Z.ltb_spec (Z.of_nat (List.length (ResetPage.password view))) 6);
      [|lia].
    cbn. repeat split.
  - destruct Hbad as [Hlt|Hne]; [lia|].
    cbn -[Z.ltb Z.of_nat List.length js JsString_eqb].
    destruct (Z.ltb_spec (Z.of_nat (List.length (ResetPage.password view))) 6);
      [lia|].
    rewrite (JsString_eqb_neq _ _ Hne). cbn. repeat split.
Qed.

(** X19.  A new password of at least 6 code units that equals its
    confirmation is sent once, as typed.  When the update fails the error
    is the failure's message (a stock message when it has none), no
    success message is set and no redirect is scheduled; when it succeeds
    the success message is set, no error is, and a redirect to the
    dashboard is scheduled 800 ms later.  Either way the saving flag ends
    off. *)
Theorem good_new_password_is_sent_once
  (answer : AuthCall -> Settled AuthResponse) (view s : ResetPage.Form) :
  (6 <= List.length (ResetPage.password view))%nat ->
  ResetPage.password view = ResetPage.confirm view ->
  let s' := pageAfter answer (ResetPage.onSubmit view) s in
  let call := updateUser (ResetPage.password view) in
  ResetPage.saving s' = false /\
  match callFailure (answer call) with
  | Some e =>
      eventsOf answer (ResetPage.onSubmit view) s
      = [Did preventDefault; Called call (answer call)] /\
      ResetPage.err s' = Some (message e ?? js "Could not update password.") /\
      ResetPage.msg s' = None
  | None =>
      eventsOf answer (ResetPage.onSubmit view) s
      = [Did preventDefault; Called call (answer call);
         Did (navigateAfter 800 (js "/dashboard") true)] /\
      ResetPage.err s' = None /\
      ResetPage.msg s' = Some ResetPage.updatedMessage
  end.
Proof.
  intros Hlen Heq. unfold pageAfter, eventsOf, ResetPage.onSubmit.
  cbn -[Z.ltb Z.of_nat List.length js JsString_eqb ResetPage.updatedMessage].
  destruct (Z.ltb_spec (Z.of_nat (List.length (ResetPage.password view))) 6);
    [lia|].
  rewrite Heq, JsString_eqb_refl.
  cbn -[js ResetPage.updatedMessage].
  destruct (answer (updateUser (ResetPage.confirm view))) as [[[e|]]|e];
    cbn -[js ResetPage.updatedMessage]; repeat split.
Qed.

(** X20.  Submitting the sign-in form asks the identity service once, to
    sign in or to sign up as the mode says, with the email and password as
    typed.  On failure the error is the failure's message and the page
    stays; on success it goes to the dashboard and shows no error.  Either
    way the loading flag ends off and no info message is set. *)
Theorem sign_in_goes_on_only_after_success
  (answer : AuthCall -> Settled AuthResponse) (view s : SignInPage.Form) :
  let s' := pageAfter answer (SignInPage.handleSubmit view) s in
  let call :=
    match SignInPage.mode view with
    | SignInPage.signin =>
        signInWithPassword (SignInPage.email view) (SignInPage.password view)
    | SignInPage.signup =>
        signUp (SignInPage.email view) (SignInPage.password view)
    end in
  SignInPage.loading s' = false /\
  SignInPage.info s' = None /\
  match callFailure (answer call) with
  | Some e =>
      eventsOf answer (SignInPage.handleSubmit view) s
      = [Did preventDefault; Called call (answer call)] /\
      SignInPage.err s' = Some (message e ?? js "Something went wrong")
  | None =>
      eventsOf answer (SignInPage.handleSubmit view) s
      = [Did preventDefault; Called call (answer call);
         Did (navigate (js "/dashboard") true)] /\
      SignInPage.err s' = None
  end.
Proof.
  unfold pageAfter, eventsOf, SignInPage.handleSubmit.
  destruct (SignInPage.mode view); cbn -[js].
  - destruct (answer (signInWithPassword (SignInPage.email view)
                        (SignInPage.password view))) as [[[e|]]|e];
      cbn -[js]; repeat split.
  - destruct (answer (signUp (SignInPage.email view)
                        (SignInPage.password view))) as [[[e|]]|e];
      cbn -[js]; repeat split.
Qed.

(** X21.  "Forgot password" with no email typed asks nothing and shows the
    hint; with an email it asks once for a reset mail for that email, with
    the reset page of this origin as the redirect.  The info message is
    set only when the request succeeded and the error only when it did
    not, so the two are never shown together; the loading flag is not
    touched. *)
Theorem forgot_password_needs_an_email
  (answer : AuthCall -> Settled AuthResponse) (origin : JsString)
  (view s : SignInPage.Form) :
  let s' := pageAfter answer (SignInPage.handleResetPassword origin view) s in
  let events := eventsOf answer (SignInPage.handleResetPassword origin view) s in
  let call :=
    resetPasswordForEmail (SignInPage.email view) (origin ++ js "/reset") in
  SignInPage.loading s' = SignInPage.loading s /\
  (SignInPage.err s' = None \/ SignInPage.info s' = None) /\
  match SignInPage.email view with
  | [] =>
      events = [] /\
      SignInPage.err s' = Some SignInPage.emailHint /\
      SignInPage.info s' = None
  | _ :: _ =>
      events = [Called call (answer call)] /\
      match callFailure (answer call) with
      | Some e =>
          SignInPage.err s' = Some (message e ?? SignInPage.notSent) /\
          SignInPage.info s' = None
      | None =>
          SignInPage.err s' = None /\
          SignInPage.info s'
          = Some (js "Check your email for a password reset link.")
      end
  end.
Proof.
  unfold pageAfter, eventsOf, SignInPage.handleResetPassword.
  destruct (SignInPage.email view) as [|c rest];
    cbn -[js SignInPage.emailHint SignInPage.notSent app].
  - repeat split. now right.
  - destruct (answer (resetPasswordForEmail (c :: rest) (origin ++ js "/reset")))
      as [[[e|]]|e];
      cbn -[js SignInPage.emailHint SignInPage.notSent app]; repeat split;
      (now left) || (now right).
Qed.

(** ** The further properties at the sample data *)

Lemma changes_of_different_counters_witness :
  let f := faults Sample.form in
  serve <> net /\
  changeFault serve 1 (changeFault net (-1) f)
  = changeFault net (-1) (changeFault serve 1 f) /\
  getFault net (changeFault serve 1 f) = getFault net f.
Proof.
  intros f. split; [discriminate|].
  apply (changes_of_different_counters_commute serve net 1 (-1) f).
  discriminate.
Defined.

Lemma plus_then_minus_witness :
  0 <= getFault serve noFaults /\
  applyAction (Decrement serve) (applyAction (Increment serve) noFaults)
  = noFaults /\
  getFault serve
    (applyAction (Increment serve) (applyAction (Decrement serve) noFaults))
  = Z.max 1 (getFault serve noFaults).
Proof.
  split; [simpl; lia|].
  apply (plus_then_minus_restores_the_tally serve noFaults). simpl. lia.
Defined.

Lemma written_row_witness :
  let B := scripted Sample.signedIn Sample.written Sample.listed in
  let calls := callsOf B (@addGame Sample.utc Sample.form) Sample.form tt in
  let row := Sample.submitted in
  In (Inserted row Sample.written) calls /\
  (exists u,
     resolvedUser (fst (getUser B tt)) = Some u /\ new_user_id row = uid u) /\
  @toPlayedAt Sample.utc (date Sample.form) (time Sample.form)
  = inr (new_played_at row) /\
  new_my_points row = myPoints Sample.form /\
  new_opp_points row = oppPoints Sample.form /\
  new_location row = locationOrNull (location Sample.form) /\
  new_serve_faults row = getFault serve (faults Sample.form) /\
  new_return_faults row = getFault return_ (faults Sample.form) /\
  new_into_net row = getFault net (faults Sample.form) /\
  new_too_long row = getFault long (faults Sample.form) /\
  new_setup_kill row = getFault setup (faults Sample.form) /\
  (List.length (filter isInsert calls) <= 1)%nat /\
  (List.length (filter isSelect calls) <= 1)%nat.
Proof.
  intros B calls row.
  assert (Hin : In (Inserted row Sample.written) calls)
    by (right; left; reflexivity).
  split; [exact Hin|].
  exact (@written_row_is_the_form Sample.utc unit B Sample.form Sample.form tt
           row Sample.written Hin).
Defined.

Lemma submission_that_wrote_nothing_witness :
  let B := scripted Sample.signedIn Sample.refused Sample.listed in
  let calls := callsOf B (@addGame Sample.utc Sample.form) Sample.form tt in
  let s' := stateAfter B (@addGame Sample.utc Sample.form) Sample.form tt in
  (forall row ri, In (Inserted row ri) calls -> insertFailure ri <> None) /\
  adding s' = false /\
  error s' <> None /\
  faults s' = faults Sample.form /\ games s' = games Sample.form /\
  loadingGames s' = loadingGames Sample.form.
Proof.
  intros B calls s'.
  assert (Hfail : forall row ri,
             In (Inserted row ri) calls -> insertFailure ri <> None).
  { intros row ri [Hin|[Hin|[]]]; [discriminate|].
    injection Hin as _ <-. discriminate. }
  split; [exact Hfail|].
  destruct (@submission_that_wrote_nothing_changes_nothing Sample.utc unit B
              Sample.form Sample.form tt) as (Ha & _ & Hrest).
  split; [exact Ha|]. exact (Hrest Hfail).
Defined.

Lemma invalid_date_witness :
  let B := scripted Sample.signedIn Sample.written Sample.listed in
  let view := withDate [] Sample.form in
  let s' := stateAfter B (@addGame Sample.utc view) view tt in
  resolvedUser (fst (getUser B tt)) = Some Sample.alice /\
  @toPlayedAt Sample.utc (date view) (time view)
  = inl (Error "Invalid time value") /\
  callsOf B (@addGame Sample.utc view) view tt = [GotUser (fst (getUser B tt))] /\
  error s' = Some (message (Error "Invalid time value") ?? js "Failed to add game") /\
  faults s' = faults view /\ adding s' = false.
Proof.
  intros B view s'.
  split; [reflexivity|]. split; [reflexivity|].
  apply (@invalid_date_writes_nothing Sample.utc unit B view view tt
           Sample.alice (Error "Invalid time value")); reflexivity.
Defined.

Lemma failed_load_witness :
  let B := scripted Sample.signedOut Sample.written Sample.listed in
  let s := withGames Sample.played Sample.form in
  let s' := stateAfter B loadGames s tt in
  (forall q d,
     ~ In (Selected q (Fulfilled {| data := d; select_error := None |}))
          (callsOf B loadGames s tt)) /\
  loadingGames s' = false /\
  games s' = Sample.played /\ error s' <> None.
Proof.
  intros B s s'.
  assert (Hno : forall q d,
             ~ In (Selected q (Fulfilled {| data := d; select_error := None |}))
                  (callsOf B loadGames s tt)).
  { intros q d [Hin|[]]. discriminate. }
  split; [exact Hno|].
  destruct (failed_load_keeps_the_list B s tt) as (Hl & _ & _ & _ & Hkeep).
  split; [exact Hl|]. exact (Hkeep Hno).
Defined.

Lemma load_without_identity_witness :
  let B := scripted Sample.signedOut Sample.written Sample.listed in
  let r := fst (getUser B tt) in
  let s' := stateAfter B loadGames Sample.form tt in
  resolvedUser r = None /\
  callsOf B loadGames Sample.form tt = [GotUser r] /\
  worldAfter B loadGames Sample.form tt = snd (getUser B tt) /\
  error s' = Some (message (signInFailure r) ?? js "Failed to load games") /\
  (r = Fulfilled {| data_user := None; auth_error := None |} ->
   error s' = Some (js "Not signed in")).
Proof.
  intros B r s'. split; [reflexivity|].
  apply (load_without_identity_asks_nothing B Sample.form tt). reflexivity.
Defined.

Lemma load_asks_for_the_latest_25_witness :
  let B := scripted Sample.signedIn Sample.written Sample.listed in
  let q := {| eq_user_id := js "a1"; order_ascending := false; limit := 25 |} in
  In (Selected q Sample.listed) (callsOf B loadGames Sample.form tt) /\
  (exists u,
     resolvedUser (fst (getUser B tt)) = Some u /\ eq_user_id q = uid u) /\
  order_ascending q = false /\ limit q = 25%nat /\
  forall d,
    Sample.listed = Fulfilled {| data := d; select_error := None |} ->
    games (stateAfter B loadGames Sample.form tt) = d ?? [] /\
    error (stateAfter B loadGames Sample.form tt) = None.
Proof.
  intros B q.
  assert (Hin : In (Selected q Sample.listed)
                   (callsOf B loadGames Sample.form tt))
    by (right; left; reflexivity).
  split; [exact Hin|].
  exact (load_asks_for_the_latest_25_of_the_user B Sample.form tt q
           Sample.listed Hin).
Defined.


Lemma last_point_witness :
  exists p p',
    Permutation Sample.played Sample.shuffled /\
    nth_error (@faultTrendData Sample.utc Sample.played) 2 = Some p /\
    nth_error (@faultTrendData Sample.utc Sample.shuffled) 2 = Some p' /\
    tp_serve p = tp_serve p' /\ tp_total p = tp_total p' /\
    tp_serve p = (inject_Z 6 / inject_Z 3)%Q.
Proof.
  assert (Hperm : Permutation Sample.played Sample.shuffled).
  { unfold Sample.played, Sample.shuffled.
    apply Permutation_sym, (Permutation_cons_app [Sample.g3; Sample.g2] []).
    apply Permutation_refl. }
  eexists. eexists.
  split; [exact Hperm|].
  assert (Hp : nth_error (@faultTrendData Sample.utc Sample.played)
                 (List.length Sample.played - 1) = Some _) by reflexivity.
  assert (Hp' : nth_error (@faultTrendData Sample.utc Sample.shuffled)
                  (List.length Sample.shuffled - 1) = Some _) by reflexivity.
  split; [exact Hp|]. split; [exact Hp'|].
  destruct (@last_point_ignores_the_input_order Sample.utc _ _ _ _
              Hperm Hp Hp') as (Hs & _ & _ & _ & _ & Ht & Hall & _).
  split; [exact Hs|]. split; [exact Ht|]. exact Hall.
Defined.

Lemma averages_are_not_negative_witness :
  Forall (fun g => forall k, 0 <= getFault k (rowFaults g)) Sample.played /\
  Forall (fun p =>
            (0 <= tp_serve p /\ 0 <= tp_return p /\ 0 <= tp_net p /\
             0 <= tp_long p /\ 0 <= tp_setup p /\ 0 <= tp_total p)%Q)
         (@faultTrendData Sample.utc Sample.played).
Proof.
  assert (Hg : Forall (fun g => forall k, 0 <= getFault k (rowFaults g))
                 Sample.played).
  { repeat constructor; intros []; simpl; lia. }
  split; [exact Hg|].
  exact (@averages_are_not_negative Sample.utc Sample.played Hg).
Defined.

Lemma most_recent_first_witness :
  Sorted (fun a b => @timeOf Sample.utc b < @timeOf Sample.utc a) Sample.played /\
  sort (@byPlayedAtAsc Sample.utc) Sample.played = rev Sample.played /\
  @faultTrendData Sample.utc Sample.played
  = @trendMap Sample.utc noFaults 0%nat (rev Sample.played).
Proof.
  assert (Hs : Sorted (fun a b => @timeOf Sample.utc b < @timeOf Sample.utc a)
                 Sample.played).
  { repeat constructor; vm_compute; reflexivity. }
  split; [exact Hs|].
  exact (@most_recent_first_is_charted_in_reverse Sample.utc Sample.played Hs).
Defined.

Lemma chronological_input_witness :
  let games := [Sample.g1; Sample.tieA; Sample.g2] in
  ascending (@timeOf Sample.utc) games /\
  sort (@byPlayedAtAsc Sample.utc) games = games /\
  @faultTrendData Sample.utc games = @trendMap Sample.utc noFaults 0%nat games.
Proof.
  intros games.
  assert (Hs : ascending (@timeOf Sample.utc) games).
  { repeat constructor; vm_compute; discriminate. }
  split; [exact Hs|].
  exact (@chronological_input_is_charted_as_given Sample.utc games Hs).
Defined.

Lemma written_tally_reads_back_witness :
  let row := newGame Sample.form Sample.alice (js "2024-05-04T08:00:00.000Z") in
  let g := stored (storedOf Sample.shelf row) in
  serve_faults g = Some (new_serve_faults row) /\
  return_faults g = Some (new_return_faults row) /\
  into_net g = Some (new_into_net row) /\
  too_long g = Some (new_too_long row) /\
  setup_kill g = Some (new_setup_kill row) /\
  rowFaults g = faults Sample.form.
Proof.
  intros row g. repeat (split; [reflexivity|]).
  apply (written_tally_reads_back Sample.form Sample.alice
           (js "2024-05-04T08:00:00.000Z") g); reflexivity.
Defined.

Lemma blank_location_witness :
  forallb isTrimSpace (js "   ") = true /\ locationOrNull (js "   ") = None.
Proof.
  split; [reflexivity|].
  apply (proj2 (blank_location_is_null (js "   "))). reflexivity.
Defined.

Lemma stored_location_is_kept_witness :
  locationOrNull (location Sample.form) = Some (js "Court 3") /\
  locationOrNull (js "Court 3") = Some (js "Court 3") /\
  js "Court 3" <> [].
Proof.
  split; [reflexivity|].
  destruct (stored_location_is_kept_when_resubmitted (location Sample.form)
              (js "Court 3") eq_refl) as (Hk & Hne & _).
  split; [exact Hk | exact Hne].
Defined.

Lemma hour_and_minute_witness :
  ~ In 58%N (js "08") /\ ~ In 58%N (js "30") /\
  timeParts (js "08") = (js "08", js "00") /\
  timeParts (js "08:30") = (js "08", js "30") /\
  timeParts (js "08:30:15") = (js "08", js "30").
Proof.
  assert (Hh : ~ In 58%N (js "08")).
  { intros [H|[H|[]]]; discriminate. }
  assert (Hm : ~ In 58%N (js "30")).
  { intros [H|[H|[]]]; discriminate. }
  split; [exact Hh|]. split; [exact Hm|].
  exact (hour_and_minute_of_a_time (js "08") (js "30") (js "15") Hh Hm).
Defined.

Lemma bad_new_password_witness :
  let view := AuthSample.shortPassword in
  let s' := pageAfter AuthSample.allGood (ResetPage.onSubmit view) view in
  ((List.length (ResetPage.password view) < 6)%nat \/
   ResetPage.password view <> ResetPage.confirm view) /\
  eventsOf AuthSample.allGood (ResetPage.onSubmit view) view
  = [Did preventDefault] /\
  ResetPage.err s'
  = Some (if (List.length (ResetPage.password view) <? 6)%nat
          then js "Password must be at least 6 characters."
          else js "Passwords do not match.") /\
  ResetPage.msg s' = None /\
  ResetPage.saving s' = ResetPage.saving view.
Proof.
  intros view s'.
  assert (Hbad : (List.length (ResetPage.password view) < 6)%nat \/
                 ResetPage.password view <> ResetPage.confirm view).
  { left. vm_compute. lia. }
  split; [exact Hbad|].
  exact (bad_new_password_is_not_sent AuthSample.allGood view view Hbad).
Defined.

Lemma good_new_password_witness :
  let view := AuthSample.goodPassword in
  let s' := pageAfter AuthSample.allGood (ResetPage.onSubmit view) view in
  let call := updateUser (ResetPage.password view) in
  (6 <= List.length (ResetPage.password view))%nat /\
  ResetPage.password view = ResetPage.confirm view /\
  ResetPage.saving s' = false /\
  eventsOf AuthSample.allGood (ResetPage.onSubmit view) view
  = [Did preventDefault; Called call (AuthSample.allGood call);
     Did (navigateAfter 800 (js "/dashboard") true)] /\
  ResetPage.err s' = None /\
  ResetPage.msg s' = Some ResetPage.updatedMessage.
Proof.
  intros view s' call.
  assert (Hlen : (6 <= List.length (ResetPage.password view))%nat)
    by (vm_compute; lia).
  split; [exact Hlen|]. split; [reflexivity|].
  exact (good_new_password_is_sent_once AuthSample.allGood view view Hlen
           eq_refl).
Defined.
